(** * inversehaar: the Haar cascade detector and its inverse as a MILP

    A shallow embedding of [jpegface.py]: the cascade loader, the expansion
    of a feature into a dense weight grid, the rejection-cascade detector,
    the constraint model built from a cascade and the driver that reads a
    solution back.

    Conventions of the embedding.
    - Python [int] is [Z]; numpy [float64] and Python [float] are the exact
      rationals [Q] (rounding is not modelled).
    - numpy arrays are objects on a heap: a name holds a location, in-place
      operators ([+=], [/=], [*=]) update the object, [astype], [zeros],
      [resize] and [array] allocate a new one.
    - An exception is an [outcome] [Raise e]; [M] threads the heap and the
      trace of observable events through the code. *)

From Stdlib Require Import ZArith QArith Lqa Lia String Ascii.
From stdpp Require Import base option list gmap strings.

(** ** Exceptions and outcomes *)

Inductive exn : Type :=
  | AttributeError      (* [None.text], [None.strip()] *)
  | AssertionError      (* a failed [assert] *)
  | IndexError          (* list index out of range *)
  | KeyError            (* missing dict key *)
  | ValueError          (* [int()], [float()], unpacking, negative dimensions *)
  | Cv2Error            (* raised by the external [cv2.resize] *)
  | SolveError          (* [Exception("Failed to find solution")] *)
  | InvalidReference.   (* a location outside the heap; no allocated name is *)

Inductive outcome (A : Type) : Type :=
  | Ok (a : A)
  | Raise (e : exn).
Arguments Ok {A} a.
Arguments Raise {A} e.

Definition obind {A B} (o : outcome A) (k : A → outcome B) : outcome B :=
  match o with
  | Ok a => k a
  | Raise e => Raise e
  end.

Notation "'let!' x ':=' e 'in' k" := (obind e (fun x => k))
  (at level 10, x pattern, e at level 100, k at level 200).

Definition is_ok {A} (o : outcome A) : bool :=
  match o with Ok _ => true | Raise _ => false end.

(** [for x in l: body] collecting the values the body appends. *)
Fixpoint for_collect {A B} (f : A → outcome B) (l : list A) : outcome (list B) :=
  match l with
  | [] => Ok []
  | a :: l' =>
      let! b := f a in
      let! bs := for_collect f l' in
      Ok (b :: bs)
  end.

(** ** Python lists, ranges and slices *)

(** [l[i]] for a Python list: a negative index counts from the end. *)
Definition getitem {A} (l : list A) (i : Z) : outcome A :=
  let n := Z.of_nat (length l) in
  let k := if (i <? 0)%Z then (i + n)%Z else i in
  if (k <? 0)%Z then Raise IndexError
  else match l !! Z.to_nat k with
       | Some a => Ok a
       | None => Raise IndexError
       end.

(** [range(n)]. *)
Definition range (n : Z) : list Z := Z.of_nat <$> seq 0 (Z.to_nat n).

(** One end of the slice [a[i:j]] over a dimension of length [len], as
    [slice.indices] computes it. *)
Definition slice_bound (i : Z) (len : nat) : Z :=
  if (i <? 0)%Z then Z.max 0 (i + Z.of_nat len) else Z.min i (Z.of_nat len).

Definition in_slice (start stop : Z) (len : nat) (k : nat) : bool :=
  (slice_bound start len <=? Z.of_nat k)%Z && (Z.of_nat k <? slice_bound stop len)%Z.

(** ** numpy arrays *)

Record ndarray : Type := NDArray {
  nrows : nat;
  ncols : nat;
  cells : list (list Q)
}.

Definition shape (a : ndarray) : Z * Z := (Z.of_nat (nrows a), Z.of_nat (ncols a)).

(** [a[i, j]]; every use below is inside the shape. *)
Definition lookup2 (a : ndarray) (i j : nat) : option Q :=
  cells a !! i ≫= (.!! j).

Definition cell (a : ndarray) (i j : nat) : Q := default 0%Q (lookup2 a i j).

Definition zeros (h w : nat) : ndarray :=
  NDArray h w (replicate h (replicate w 0%Q)).

Definition map_cells (f : nat → nat → Q → Q) (a : ndarray) : ndarray :=
  NDArray (nrows a) (ncols a) (imap (λ i row, imap (f i) row) (cells a)).

(** [a[y0:y1, x0:x1] += weight] *)
Definition iadd_slice (y0 y1 x0 x1 : Z) (weight : Q) (a : ndarray) : ndarray :=
  map_cells (λ i j v,
    if in_slice y0 y1 (nrows a) i && in_slice x0 x1 (ncols a) j
    then (v + weight)%Q else v) a.

(** [a /= k] and [a *= k] *)
Definition idiv (k : Q) (a : ndarray) : ndarray := map_cells (λ _ _ v, (v / k)%Q) a.
Definition imul (k : Q) (a : ndarray) : ndarray := map_cells (λ _ _ v, (v * k)%Q) a.

(** [a * b], elementwise, for two arrays of one shape. *)
Definition multiply (a b : ndarray) : ndarray :=
  NDArray (nrows a) (ncols a)
          (zip_with (zip_with Qmult) (cells a) (cells b)).

Definition sum_list (l : list Q) : Q := foldr Qplus 0%Q l.

(** [numpy.sum(a)] *)
Definition numpy_sum (a : ndarray) : Q := sum_list (sum_list <$> cells a).

Definition Qlt_bool (a b : Q) : bool := negb (Qle_bool b a).

(** [numpy.array(rows)] for a non-empty list of rows of one length. *)
Definition numpy_array (rows : list (list Q)) : ndarray :=
  NDArray (length rows) (length (default [] (head rows))) rows.

Inductive interpolation : Type := INTER_AREA | INTER_NEAREST.

(** ** The cascade data model (the namedtuples) *)

Module Rect.
Record t : Type := mk { x : Z; y : Z; w : Z; h : Z; weight : Q }.
End Rect.

Module WeakClassifier.
Record t : Type := mk {
  feature_idx : Z; threshold : Q; fail_val : Q; pass_val : Q }.
End WeakClassifier.

Module Stage.
Record t : Type := mk {
  threshold : Q; weak_classifiers : list WeakClassifier.t }.
End Stage.

(** ** The world: heap of arrays and trace of events *)

Definition loc := nat.

(** [Evaluated] is instrumentation: it marks that the detector starts the
    test of one weak classifier.  [Printed] is the [print] of [detect],
    [Written] a [cv2.imwrite]. *)
Inductive event : Type :=
  | Evaluated (stage_idx : Z) (classifier : WeakClassifier.t)
  | Printed (stage_idx : Z)
  | Written (fname : string) (im : ndarray).

Record world : Type := World {
  heap : list ndarray;
  trace : list event
}.

Definition M (A : Type) : Type := world → outcome A * world.

Definition ret {A} (a : A) : M A := λ s, (Ok a, s).

Definition raise {A} (e : exn) : M A := λ s, (Raise e, s).

Definition bind {A B} (m : M A) (k : A → M B) : M B :=
  λ s, match m s with
       | (Ok a, s') => k a s'
       | (Raise e, s') => (Raise e, s')
       end.

Notation "x <- e ;; k" := (bind e (fun x => k))
  (at level 100, e at next level, right associativity).

Definition lift {A} (o : outcome A) : M A := λ s, (o, s).

(** A new array object. *)
Definition alloc (a : ndarray) : M loc :=
  λ s, (Ok (length (heap s)), World (heap s ++ [a]) (trace s)).

(** The array a name refers to. *)
Definition deref (l : loc) : M ndarray :=
  λ s, match heap s !! l with
       | Some a => (Ok a, s)
       | None => (Raise InvalidReference, s)
       end.

(** An in-place operator on the object at [l]. *)
Definition modify (l : loc) (f : ndarray → ndarray) : M unit :=
  λ s, (Ok tt, World (alter f l (heap s)) (trace s)).

Definition emit (e : event) : M unit :=
  λ s, (Ok tt, World (heap s) (trace s ++ [e])).

(** [for x in l: body] *)
Fixpoint for_each {A} (body : A → M unit) (l : list A) : M unit :=
  match l with
  | [] => ret tt
  | a :: l' => _ <- body a ;; for_each body l'
  end.

(** [numpy.zeros((h, w))] *)
Definition numpy_zeros (h w : Z) : M loc :=
  if ((h <? 0) || (w <? 0))%Z then raise ValueError
  else alloc (zeros (Z.to_nat h) (Z.to_nat w)).

(** ** The parsed cascade description

    [xml.etree.ElementTree.parse] is outside the program; the loader starts
    from the element tree it returns. *)

#[local] Unset Elimination Schemes.
Inductive Element : Type :=
  mkElement (tag : string) (text : option string) (children : list Element).
#[local] Set Elimination Schemes.

Definition tag (e : Element) : string := let (t, _, _) := e in t.
Definition text (e : Element) : option string := let (_, t, _) := e in t.
Definition children (e : Element) : list Element := let (_, _, c) := e in c.

(** [e.findall(path)], for a path of child tags such as
    [./cascade/stages/_], in document order. *)
Fixpoint findall (path : list string) (e : Element) : list Element :=
  match path with
  | [] => [e]
  | t :: path' =>
      c ← filter (λ c, tag c = t) (children e); findall path' c
  end.

(** [e.find(path)]: the first match, or [None]. *)
Definition find (path : list string) (e : Element) : option Element :=
  head (findall path e).

(** Python's [str.strip()] and [str.split(' ')]. *)
Definition is_space (c : ascii) : bool :=
  let n := nat_of_ascii c in
  (n =? 32) || (n =? 9) || (n =? 10) || (n =? 13) || (n =? 11) || (n =? 12).

Fixpoint lstrip (s : string) : string :=
  match s with
  | String c s' => if is_space c then lstrip s' else s
  | EmptyString => EmptyString
  end.

Fixpoint rstrip (s : string) : string :=
  match s with
  | String c s' =>
      match rstrip s' with
      | EmptyString => if is_space c then EmptyString else String c EmptyString
      | r => String c r
      end
  | EmptyString => EmptyString
  end.

Definition strip (s : string) : string := rstrip (lstrip s).

Fixpoint split_space (s : string) : list string :=
  match s with
  | EmptyString => [EmptyString]
  | String c s' =>
      if Ascii.eqb c " "%char then EmptyString :: split_space s'
      else match split_space s' with
           | t :: ts => String c t :: ts
           | [] => [String c EmptyString]
           end
  end.

Definition assert (b : bool) : outcome unit :=
  if b then Ok tt else Raise AssertionError.

Module Cascade.

Record t : Type := mk {
  width : Z;
  height : Z;
  stages : list Stage.t;
  features : list (list Rect.t)
}.

(** [n.text.strip().split(' ')] *)
Definition _split_text_content (n : option Element) : outcome (list string) :=
  match n with
  | None => Raise AttributeError
  | Some e =>
      match text e with
      | None => Raise AttributeError
      | Some s => Ok (split_space (strip s))
      end
  end.

(** [int(n.text.strip())] and its [float] twin, for [n = root.find(...)]. *)
Definition stripped_text (n : option Element) : outcome string :=
  match n with
  | None => Raise AttributeError
  | Some e =>
      match text e with
      | None => Raise AttributeError
      | Some s => Ok (strip s)
      end
  end.

Section Loader.
(** The builtins [int] and [float] on strings. *)
Variable int : string → outcome Z.
Variable float : string → outcome Q.

Definition load_classifier (classifier_node : Element)
  : outcome WeakClassifier.t :=
  let! sp := _split_text_content (find ["internalNodes"] classifier_node) in
  let! sp0 := getitem sp 0 in
  let! _ := assert (String.eqb sp0 "0") in
  let! sp1 := getitem sp 1 in
  let! _ := assert (String.eqb sp1 "-1") in
  let! sp2 := getitem sp 2 in
  let! feature_idx := int sp2 in
  let! sp3 := getitem sp 3 in
  let! threshold := float sp3 in
  let! sp := _split_text_content (find ["leafValues"] classifier_node) in
  let! sp0 := getitem sp 0 in
  let! fail_val := float sp0 in
  let! sp1 := getitem sp 1 in
  let! pass_val := float sp1 in
  Ok (WeakClassifier.mk feature_idx threshold fail_val pass_val).

Definition load_stage (stage_node : Element) : outcome Stage.t :=
  let! s := stripped_text (find ["stageThreshold"] stage_node) in
  let! stage_threshold := float s in
  let! weak_classifiers :=
    for_collect load_classifier (findall ["weakClassifiers"; "_"] stage_node) in
  Ok (Stage.mk stage_threshold weak_classifiers).

Definition load_rect (rect_node : Element) : outcome Rect.t :=
  let! sp := _split_text_content (Some rect_node) in
  let! xywh := for_collect int (take 4 sp) in
  match xywh with
  | [x; y; w; h] =>
      let! sp4 := getitem sp 4 in
      let! weight := float sp4 in
      Ok (Rect.mk x y w h weight)
  | _ => Raise ValueError
  end.

Definition load_feature (feature_node : Element) : outcome (list Rect.t) :=
  for_collect load_rect (findall ["rects"; "_"] feature_node).

Definition load (root : Element) : outcome t :=
  let! s := stripped_text (find ["cascade"; "width"] root) in
  let! width := int s in
  let! s := stripped_text (find ["cascade"; "height"] root) in
  let! height := int s in
  let! stages := for_collect load_stage (findall ["cascade"; "stages"; "_"] root) in
  let! features :=
    for_collect load_feature (findall ["cascade"; "features"; "_"] root) in
  Ok (mk width height stages features).
End Loader.

Definition feature_to_array (self : t) (feature_idx : Z) : M loc :=
  out <- numpy_zeros (height self) (width self) ;;
  feature <- lift (getitem (features self) feature_idx) ;;
  _ <- for_each (λ r : Rect.t,
         let '(Rect.mk x y w h weight) := r in
         modify out (iadd_slice y (y + h) x (x + w) weight)) feature ;;
  ret out.

Section Detect.
(** [cv2.resize(im, (width, height), interpolation=...)]: an array of
    [height] rows and [width] columns, or an error. *)
Variable cv2_resize : ndarray → Z * Z → interpolation → outcome ndarray.

(** The body of [for classifier in stage.weak_classifiers]. *)
Fixpoint classifier_loop (self : t) (im : loc) (stage_idx : Z)
    (classifiers : list WeakClassifier.t) (total : Q) : M Q :=
  match classifiers with
  | [] => ret total
  | classifier :: rest =>
      _ <- emit (Evaluated stage_idx classifier) ;;
      feature_array <-
        feature_to_array self (WeakClassifier.feature_idx classifier) ;;
      fa <- deref feature_array ;;
      a <- deref im ;;
      if Qle_bool (WeakClassifier.threshold classifier)
                  (numpy_sum (multiply fa a))
      then classifier_loop self im stage_idx rest
             (total + WeakClassifier.pass_val classifier)%Q
      else classifier_loop self im stage_idx rest
             (total + WeakClassifier.fail_val classifier)%Q
  end.

(** The body of [for stage_idx, stage in enumerate(self.stages)]. *)
Fixpoint stage_loop (self : t) (im : loc) (stage_idx : Z)
    (stages : list Stage.t) : M Z :=
  match stages with
  | [] => ret 1%Z
  | stage :: rest =>
      total <- classifier_loop self im stage_idx
                 (Stage.weak_classifiers stage) 0%Q ;;
      if Qlt_bool total (Stage.threshold stage)
      then _ <- emit (Printed stage_idx) ;; ret (- stage_idx)%Z
      else stage_loop self im (stage_idx + 1)%Z rest
  end.

Definition detect (self : t) (im : loc) : M Z :=
  a <- deref im ;;
  im <- (if decide (shape a ≠ (height self, width self))
         then r <- lift (cv2_resize a (width self, height self) INTER_AREA) ;;
              alloc r
         else ret im) ;;
  a <- deref im ;;
  im <- alloc a ;;                                   (* astype(float64) *)
  _ <- modify im (idiv (256 * inject_Z (height self * width self))) ;;
  stage_loop self im 0%Z (stages self).
End Detect.

End Cascade.

(** ** The solver's model (docplex)

    A decision variable is known by its name: [pixel_x_y] or [feature_idx]. *)

Inductive var : Type :=
  | pixel (x y : Z)
  | feature (idx : Z).

(** A linear expression: the terms [coefficient * variable] of a sum. *)
Definition linexpr : Type := list (Q * var).

Inductive sense : Type := GE | LE.

(** [lhs >= rhs] or [lhs <= rhs]. *)
Record constraint : Type := LinearConstraint {
  lhs : linexpr;
  rel : sense;
  rhs : Q
}.

Module Model.
Record t : Type := mk {
  continuous_vars : list (var * Q * Q);     (* name, lb, ub *)
  binary_vars : list var;
  constraints : list constraint;
  objective : option linexpr                (* "min" *)
}.

Definition new : t := mk [] [] [] None.

Definition continuous_var (m : t) (name : var) (lb ub : Q) : t * var :=
  (mk (continuous_vars m ++ [(name, lb, ub)]) (binary_vars m)
      (constraints m) (objective m), name).

Definition binary_var (m : t) (name : var) : t * var :=
  (mk (continuous_vars m) (binary_vars m ++ [name])
      (constraints m) (objective m), name).

Definition add_constraint (m : t) (ct : constraint) : t :=
  mk (continuous_vars m) (binary_vars m) (constraints m ++ [ct]) (objective m).

Definition set_objective (m : t) (e : linexpr) : t :=
  mk (continuous_vars m) (binary_vars m) (constraints m) (Some e).
End Model.

(** [d[k]] for a dict. *)
Definition dict_get `{Countable K} {V} (d : gmap K V) (k : K) : outcome V :=
  match d !! k with
  | Some v => Ok v
  | None => Raise KeyError
  end.

(** The builtin [sum] over numbers: [0 + x1 + x2 + ...]. *)
Definition py_sum (l : list Q) : Q := foldl Qplus 0%Q l.

(** The builtin [sum] over a generator of terms, each produced (or skipped
    by the generator's [if]) in turn. *)
Fixpoint sum_terms {A} (f : A → outcome linexpr) (l : list A) : outcome linexpr :=
  match l with
  | [] => Ok []
  | a :: l' =>
      let! t := f a in
      let! ts := sum_terms f l' in
      Ok (t ++ ts)
  end.

(** [for y in range(cascade.height) for x in range(cascade.width)]: the
    pixels [(y, x)] of the cascade's window, row by row. *)
Definition pixels (cascade : Cascade.t) : list (Z * Z) :=
  y ← range (Cascade.height cascade); x ← range (Cascade.width cascade); [(y, x)].

Module CascadeModel.

Record t : Type := mk {
  cascade : Cascade.t;
  pixel_vars : gmap (Z * Z) var;
  feature_vars : gmap Z var;
  model : Model.t
}.

(** [sum(pixel_vars[x, y] * feature_array[y, x]
         for y in range(height) for x in range(width)
         if feature_array[y, x] != 0.)] *)
Definition pixel_sum (cascade : Cascade.t) (pixel_vars : gmap (Z * Z) var)
    (feature_array : ndarray) : outcome linexpr :=
  sum_terms (λ '(y, x),
      let c := cell feature_array (Z.to_nat y) (Z.to_nat x) in
      if negb (Qeq_bool c 0) then
        let! v := dict_get pixel_vars (x, y) in Ok [(c, v)]
      else Ok [])
    (pixels cascade).

(** The constraint of one weak classifier. *)
Definition classifier_constraint (cascade : Cascade.t) (epsilon : Q)
    (pixel_vars : gmap (Z * Z) var) (feature_vars : gmap Z var)
    (classifier : WeakClassifier.t) : M constraint :=
  feature_array <-
    Cascade.feature_to_array cascade (WeakClassifier.feature_idx classifier) ;;
  _ <- modify feature_array
         (idiv (inject_Z (Cascade.width cascade * Cascade.height cascade))) ;;
  fa <- deref feature_array ;;
  if Qle_bool (WeakClassifier.fail_val classifier)
              (WeakClassifier.pass_val classifier)
  then
    let adjusted_classifier_threshold :=
      (WeakClassifier.threshold classifier + epsilon)%Q in
    s <- lift (pixel_sum cascade pixel_vars fa) ;;
    fv <- lift (dict_get feature_vars (WeakClassifier.feature_idx classifier)) ;;
    ret (LinearConstraint (s ++ [((- adjusted_classifier_threshold)%Q, fv)]) GE 0)
  else
    let adjusted_classifier_threshold :=
      (WeakClassifier.threshold classifier - epsilon)%Q in
    s <- lift (pixel_sum cascade pixel_vars fa) ;;
    fv <- lift (dict_get feature_vars (WeakClassifier.feature_idx classifier)) ;;
    ret (LinearConstraint (s ++ [(adjusted_classifier_threshold, fv)]) LE
           adjusted_classifier_threshold).

(** [for classifier in stage.weak_classifiers: model.add_constraint(...)] *)
Fixpoint classifier_constraints (cascade : Cascade.t) (epsilon : Q)
    (pixel_vars : gmap (Z * Z) var) (feature_vars : gmap Z var)
    (classifiers : list WeakClassifier.t) (model : Model.t) : M Model.t :=
  match classifiers with
  | [] => ret model
  | classifier :: rest =>
      ct <- classifier_constraint cascade epsilon pixel_vars feature_vars
              classifier ;;
      classifier_constraints cascade epsilon pixel_vars feature_vars rest
        (Model.add_constraint model ct)
  end.

(** The constraint of one stage. *)
Definition stage_constraint (epsilon : Q) (feature_vars : gmap Z var)
    (stage : Stage.t) : outcome constraint :=
  let fail_val_total :=
    py_sum (WeakClassifier.fail_val <$> Stage.weak_classifiers stage) in
  let adjusted_stage_threshold := (Stage.threshold stage + epsilon)%Q in
  let! s := sum_terms (λ c,
      let! fv := dict_get feature_vars (WeakClassifier.feature_idx c) in
      Ok [((WeakClassifier.pass_val c - WeakClassifier.fail_val c)%Q, fv)])
    (Stage.weak_classifiers stage) in
  Ok (LinearConstraint s GE (adjusted_stage_threshold - fail_val_total)).

(** [for stage in cascade.stages: ...] *)
Fixpoint stage_constraints (cascade : Cascade.t) (epsilon : Q)
    (pixel_vars : gmap (Z * Z) var) (feature_vars : gmap Z var)
    (stages : list Stage.t) (model : Model.t) : M Model.t :=
  match stages with
  | [] => ret model
  | stage :: rest =>
      model <- classifier_constraints cascade epsilon pixel_vars feature_vars
                 (Stage.weak_classifiers stage) model ;;
      ct <- lift (stage_constraint epsilon feature_vars stage) ;;
      stage_constraints cascade epsilon pixel_vars feature_vars rest
        (Model.add_constraint model ct)
  end.

(** The two dict comprehensions that create the variables. *)
Definition add_pixel_var (acc : Model.t * gmap (Z * Z) var) (yx : Z * Z)
  : Model.t * gmap (Z * Z) var :=
  let '(m, d) := acc in
  let '(y, x) := yx in
  let '(m, v) := Model.continuous_var m (pixel x y) 0 1 in
  (m, <[(x, y) := v]> d).

Definition make_pixel_vars (cascade : Cascade.t) (model : Model.t)
  : Model.t * gmap (Z * Z) var :=
  foldl add_pixel_var (model, ∅) (pixels cascade).

Definition add_feature_var (acc : Model.t * gmap Z var) (idx : Z)
  : Model.t * gmap Z var :=
  let '(m, d) := acc in
  let '(m, v) := Model.binary_var m (feature idx) in
  (m, <[idx := v]> d).

Definition make_feature_vars (cascade : Cascade.t) (model : Model.t)
  : Model.t * gmap Z var :=
  foldl add_feature_var (model, ∅)
    (range (Z.of_nat (length (Cascade.features cascade)))).

(** [CascadeModel.__init__(cascade, epsilon)] *)
Definition init (cascade : Cascade.t) (epsilon : Q) : M t :=
  let model := Model.new in
  let '(model, pixel_vars) := make_pixel_vars cascade model in
  let '(model, feature_vars) := make_feature_vars cascade model in
  model <- stage_constraints cascade epsilon pixel_vars feature_vars
             (Cascade.stages cascade) model ;;
  ret (mk cascade pixel_vars feature_vars model).

End CascadeModel.

(** ** What a solution of a model is *)

Definition assignment : Type := var → Q.

Definition eval (a : assignment) (e : linexpr) : Q :=
  sum_list ((λ t : Q * var, (t.1 * a t.2)%Q) <$> e).

Definition holds (a : assignment) (ct : constraint) : Prop :=
  match rel ct with
  | GE => (rhs ct <= eval a (lhs ct))%Q
  | LE => (eval a (lhs ct) <= rhs ct)%Q
  end.

Definition holdsb (a : assignment) (ct : constraint) : bool :=
  match rel ct with
  | GE => Qle_bool (rhs ct) (eval a (lhs ct))
  | LE => Qle_bool (eval a (lhs ct)) (rhs ct)
  end.

Definition in_bounds (a : assignment) (b : var * Q * Q) : Prop :=
  (b.1.2 <= a b.1.1 <= b.2)%Q.

Definition is_binary (a : assignment) (v : var) : Prop :=
  (a v == 0 ∨ a v == 1)%Q.

(** [a] satisfies every bound and every constraint of [m]. *)
Definition feasible (a : assignment) (m : Model.t) : Prop :=
  Forall (in_bounds a) (Model.continuous_vars m) ∧
  Forall (is_binary a) (Model.binary_vars m) ∧
  Forall (holds a) (Model.constraints m).

Definition feasibleb (a : assignment) (m : Model.t) : bool :=
  forallb (λ b : var * Q * Q, Qle_bool b.1.2 (a b.1.1) && Qle_bool (a b.1.1) b.2)
          (Model.continuous_vars m) &&
  forallb (λ v, Qeq_bool (a v) 0 || Qeq_bool (a v) 1) (Model.binary_vars m) &&
  forallb (holdsb a) (Model.constraints m).

(** ** The driver *)

(** [sum(v for v in cascade_model.pixel_vars.values())] *)
Definition total_intensity (cascade_model : CascadeModel.t) : linexpr :=
  (λ kv : Z * Z * var, (1%Q, kv.2)) <$>
    map_to_list (CascadeModel.pixel_vars cascade_model).

Section Driver.
Variable int : string → outcome Z.
Variable float : string → outcome Q.
Variable cv2_resize : ndarray → Z * Z → interpolation → outcome ndarray.
(** [model.solve()]: the values of the variables, or [None]. *)
Variable solve : Model.t → option assignment.

(** [print_information], [export_as_lp] and [report] only write output
    and are left out. *)
Definition find_min_face (cascade_file : Element) : M loc :=
  cascade <- lift (Cascade.load int float cascade_file) ;;
  cascade_model <- CascadeModel.init cascade 0 ;;
  let model :=
    Model.set_objective (CascadeModel.model cascade_model)
      (total_intensity cascade_model) in
  match solve model with
  | None => raise SolveError
  | Some solution_value =>
      sol <- lift (for_collect (λ y,
               for_collect (λ x,
                 let! v := dict_get (CascadeModel.pixel_vars cascade_model) (x, y) in
                 Ok (solution_value v))
                 (range (Cascade.width cascade)))
               (range (Cascade.height cascade))) ;;
      alloc (numpy_array sol)
  end.

(** The script: lines 242 to 249. *)
Definition main (argv1 : Element) : M unit :=
  im <- find_min_face argv1 ;;
  _ <- modify im (imul 256) ;;
  a <- deref im ;;
  r <- lift (cv2_resize a ((shape a).2 * 10, (shape a).1 * 10)%Z INTER_NEAREST) ;;
  im_resized <- alloc r ;;
  _ <- emit (Written "out.png" r) ;;
  cascade <- lift (Cascade.load int float argv1) ;;
  d <- Cascade.detect cv2_resize cascade im ;;
  lift (assert (d =? 1)%Z).
End Driver.

(** ** Instances of the external functions, to run the code on examples *)

(** [int] and [float] on plain decimal literals. *)
Fixpoint digits (s : string) (acc : Z) : outcome Z :=
  match s with
  | EmptyString => Ok acc
  | String c s' =>
      let n := Z.of_nat (nat_of_ascii c) in
      if ((48 <=? n) && (n <=? 57))%Z then digits s' (10 * acc + (n - 48))%Z
      else Raise ValueError
  end.

Definition unsigned (s : string) : outcome Z :=
  match s with
  | EmptyString => Raise ValueError
  | _ => digits s 0
  end.

Definition decimal_int (s : string) : outcome Z :=
  match s with
  | String "-" s' => let! n := unsigned s' in Ok (- n)%Z
  | _ => unsigned s
  end.

Fixpoint cut_at_dot (s : string) : string * option string :=
  match s with
  | EmptyString => (EmptyString, None)
  | String c s' =>
      if Ascii.eqb c "."%char then (EmptyString, Some s')
      else let '(a, b) := cut_at_dot s' in (String c a, b)
  end.

Definition unsigned_decimal (s : string) : outcome Q :=
  match cut_at_dot s with
  | (ip, None) => let! n := unsigned ip in Ok (inject_Z n)
  | (ip, Some fp) =>
      let! n := unsigned ip in
      let! f := unsigned fp in
      Ok (Qred (inject_Z n + inject_Z f / inject_Z (10 ^ Z.of_nat (String.length fp))))
  end.

Definition decimal_float (s : string) : outcome Q :=
  match s with
  | String "-" s' => let! q := unsigned_decimal s' in Ok (- q)%Q
  | _ => unsigned_decimal s
  end.

(** A resize that samples the nearest source cell. *)
Definition sample_resize (a : ndarray) (dsize : Z * Z) (_ : interpolation)
  : outcome ndarray :=
  let '(w, h) := dsize in
  if ((w <=? 0) || (h <=? 0))%Z || (nrows a =? 0) || (ncols a =? 0)
  then Raise Cv2Error
  else
    let h := Z.to_nat h in
    let w := Z.to_nat w in
    Ok (NDArray h w
          ((λ i, (λ j, cell a (i * nrows a / h) (j * ncols a / w)) <$> seq 0 w)
             <$> seq 0 h)).

(** ** The values the code computes

    The functions below give, without the heap, the value each piece of the
    code computes; the run lemmas further down show that the code computes
    exactly these values and allocates fresh objects only. *)

Definition add_rect (a : ndarray) (r : Rect.t) : ndarray :=
  iadd_slice (Rect.y r) (Rect.y r + Rect.h r) (Rect.x r) (Rect.x r + Rect.w r)
             (Rect.weight r) a.

Definition feature_grid (h w : nat) (f : list Rect.t) : ndarray :=
  foldl add_rect (zeros h w) f.

(** The array [feature_to_array] returns. *)
Definition feature_array (self : Cascade.t) (feature_idx : Z) : outcome ndarray :=
  if ((Cascade.height self <? 0) || (Cascade.width self <? 0))%Z
  then Raise ValueError
  else
    let! f := getitem (Cascade.features self) feature_idx in
    Ok (feature_grid (Z.to_nat (Cascade.height self))
                     (Z.to_nat (Cascade.width self)) f).

(** What one weak classifier adds to the total of its stage on the
    normalized image [nim]. *)
Definition contribution (cl : WeakClassifier.t) (fa nim : ndarray) : Q :=
  if Qle_bool (WeakClassifier.threshold cl) (numpy_sum (multiply fa nim))
  then WeakClassifier.pass_val cl else WeakClassifier.fail_val cl.

Definition vote (self : Cascade.t) (nim : ndarray) (cl : WeakClassifier.t)
  : outcome Q :=
  let! fa := feature_array self (WeakClassifier.feature_idx cl) in
  Ok (contribution cl fa nim).

(** The total of a stage and the classifiers whose test was started. *)
Fixpoint classifier_run (self : Cascade.t) (nim : ndarray) (stage_idx : Z)
    (cls : list WeakClassifier.t) (total : Q) : outcome Q * list event :=
  match cls with
  | [] => (Ok total, [])
  | cl :: rest =>
      match vote self nim cl with
      | Ok v =>
          let '(r, ev) := classifier_run self nim stage_idx rest (total + v)%Q in
          (r, Evaluated stage_idx cl :: ev)
      | Raise e => (Raise e, [Evaluated stage_idx cl])
      end
  end.

Fixpoint stage_run (self : Cascade.t) (nim : ndarray) (stage_idx : Z)
    (stages : list Stage.t) : outcome Z * list event :=
  match stages with
  | [] => (Ok 1%Z, [])
  | stage :: rest =>
      match classifier_run self nim stage_idx (Stage.weak_classifiers stage) 0%Q with
      | (Ok total, ev) =>
          if Qlt_bool total (Stage.threshold stage)
          then (Ok (- stage_idx)%Z, ev ++ [Printed stage_idx])
          else let '(r, ev') := stage_run self nim (stage_idx + 1)%Z rest in
               (r, ev ++ ev')
      | (Raise e, ev) => (Raise e, ev)
      end
  end.

Section DetectValues.
Variable cv2_resize : ndarray → Z * Z → interpolation → outcome ndarray.

(** The image the stages see: resized when its shape differs, then
    divided by [256 * (height * width)]. *)
Definition normalized_image (self : Cascade.t) (a : ndarray) : outcome ndarray :=
  let! r := (if decide (shape a ≠ (Cascade.height self, Cascade.width self))
             then cv2_resize a (Cascade.width self, Cascade.height self) INTER_AREA
             else Ok a) in
  Ok (idiv (256 * inject_Z (Cascade.height self * Cascade.width self)) r).

Definition detect_run (self : Cascade.t) (a : ndarray) : outcome Z * list event :=
  match normalized_image self a with
  | Ok nim => stage_run self nim 0%Z (Cascade.stages self)
  | Raise e => (Raise e, [])
  end.
End DetectValues.

(** ** The claims' own notions *)

(** The footprint [[y, y+h) x [x, x+w)] of a rectangle, at row [i] and
    column [j]. *)
Definition footprint (r : Rect.t) (i j : nat) : bool :=
  ((Rect.y r <=? Z.of_nat i) && (Z.of_nat i <? Rect.y r + Rect.h r) &&
   (Rect.x r <=? Z.of_nat j) && (Z.of_nat j <? Rect.x r + Rect.w r))%Z.

(** The footprint cut to the grid:
    [[y, min(y+h, height)) x [x, min(x+w, width))]. *)
Definition clipped_footprint (height width : Z) (r : Rect.t) (i j : nat) : bool :=
  ((Rect.y r <=? Z.of_nat i) &&
   (Z.of_nat i <? Z.min (Rect.y r + Rect.h r) height) &&
   (Rect.x r <=? Z.of_nat j) &&
   (Z.of_nat j <? Z.min (Rect.x r + Rect.w r) width))%Z.

(** The cells the slice [out[y:(y + h), x:(x + w)]] selects in an array of
    [height] rows and [width] columns. *)
Definition slice_region (height width : nat) (r : Rect.t) (i j : nat) : bool :=
  in_slice (Rect.y r) (Rect.y r + Rect.h r) height i &&
  in_slice (Rect.x r) (Rect.x r + Rect.w r) width j.

(** The sum of the weights of the rectangles whose region holds [(i, j)]. *)
Definition weight_sum (region : Rect.t → nat → nat → bool) (f : list Rect.t)
    (i j : nat) : Q :=
  sum_list ((λ r, if region r i j then Rect.weight r else 0%Q) <$> f).

(** The data model's rectangle: non-negative [x], [y], [w], [h]. *)
Definition rect_wf (r : Rect.t) : Prop :=
  (0 ≤ Rect.x r ∧ 0 ≤ Rect.y r ∧ 0 ≤ Rect.w r ∧ 0 ≤ Rect.h r)%Z.

(** An array whose rows agree with its shape. *)
Definition array_wf (a : ndarray) : Prop :=
  length (cells a) = nrows a ∧ Forall (λ row, length row = ncols a) (cells a).

(** The score of a stage: the sum of the contributions of its classifiers. *)
Definition stage_score (self : Cascade.t) (nim : ndarray) (stage : Stage.t)
  : outcome Q :=
  let! vs := for_collect (vote self nim) (Stage.weak_classifiers stage) in
  Ok (sum_list vs).

Definition stage_passes (self : Cascade.t) (nim : ndarray) (stage : Stage.t) : Prop :=
  ∃ t, stage_score self nim stage = Ok t ∧ (Stage.threshold stage <= t)%Q.

Definition stage_rejects (self : Cascade.t) (nim : ndarray) (stage : Stage.t) : Prop :=
  ∃ t, stage_score self nim stage = Ok t ∧ (t < Stage.threshold stage)%Q.

(** The tests the detector starts in the stages of [stages], numbered from
    [stage_idx]. *)
Fixpoint evaluations (stage_idx : Z) (stages : list Stage.t) : list event :=
  match stages with
  | [] => []
  | stage :: rest =>
      (Evaluated stage_idx <$> Stage.weak_classifiers stage) ++
      evaluations (stage_idx + 1)%Z rest
  end.

(** ** The values the model builder computes *)

(** The feature array after [feature_array /= (width * height)]. *)
Definition scaled_feature_array (cascade : Cascade.t) (feature_idx : Z)
  : outcome ndarray :=
  let! g := feature_array cascade feature_idx in
  Ok (idiv (inject_Z (Cascade.width cascade * Cascade.height cascade)) g).

Definition classifier_constraint_value (cascade : Cascade.t) (epsilon : Q)
    (pixel_vars : gmap (Z * Z) var) (feature_vars : gmap Z var)
    (cl : WeakClassifier.t) : outcome constraint :=
  let! fa := scaled_feature_array cascade (WeakClassifier.feature_idx cl) in
  let! s := CascadeModel.pixel_sum cascade pixel_vars fa in
  let! fv := dict_get feature_vars (WeakClassifier.feature_idx cl) in
  Ok (if Qle_bool (WeakClassifier.fail_val cl) (WeakClassifier.pass_val cl)
      then LinearConstraint
             (s ++ [((- (WeakClassifier.threshold cl + epsilon))%Q, fv)]) GE 0
      else LinearConstraint
             (s ++ [((WeakClassifier.threshold cl - epsilon)%Q, fv)]) LE
             (WeakClassifier.threshold cl - epsilon)).

(** The constraints one stage adds: one for each classifier, then its own. *)
Definition stage_constraints_value (cascade : Cascade.t) (epsilon : Q)
    (pixel_vars : gmap (Z * Z) var) (feature_vars : gmap Z var)
    (stage : Stage.t) : outcome (list constraint) :=
  let! cts := for_collect
      (classifier_constraint_value cascade epsilon pixel_vars feature_vars)
      (Stage.weak_classifiers stage) in
  let! ct := CascadeModel.stage_constraint epsilon feature_vars stage in
  Ok (cts ++ [ct]).

Definition add_constraints (m : Model.t) (cts : list constraint) : Model.t :=
  foldl Model.add_constraint m cts.

Definition init_value (cascade : Cascade.t) (epsilon : Q) : outcome CascadeModel.t :=
  let model := Model.new in
  let '(model, pixel_vars) := CascadeModel.make_pixel_vars cascade model in
  let '(model, feature_vars) := CascadeModel.make_feature_vars cascade model in
  let! ctss := for_collect
      (stage_constraints_value cascade epsilon pixel_vars feature_vars)
      (Cascade.stages cascade) in
  Ok (CascadeModel.mk cascade pixel_vars feature_vars
        (add_constraints model (concat ctss))).

(** ** The inequalities of the specification *)

(** The cell [(y, x)] of a feature grid scaled by [1 / (width * height)]. *)
Definition scaled_cell (cascade : Cascade.t) (g : ndarray) (y x : Z) : Q :=
  (cell g (Z.to_nat y) (Z.to_nat x) *
   (1 / inject_Z (Cascade.width cascade * Cascade.height cascade)))%Q.

(** The sum over all pixels of [pixel(x, y) * featuregrid(y, x)]. *)
Definition feature_response (cascade : Cascade.t) (g : ndarray) (a : assignment) : Q :=
  sum_list ((λ '(y, x), (a (pixel x y) * scaled_cell cascade g y x)%Q)
              <$> pixels cascade).

(** The inequality a weak classifier stands for. *)
Definition classifier_inequality (cascade : Cascade.t) (epsilon : Q)
    (cl : WeakClassifier.t) (g : ndarray) (a : assignment) : Prop :=
  if Qle_bool (WeakClassifier.fail_val cl) (WeakClassifier.pass_val cl)
  then (feature_response cascade g a -
        (WeakClassifier.threshold cl + epsilon) *
        a (feature (WeakClassifier.feature_idx cl)) >= 0)%Q
  else (feature_response cascade g a +
        (WeakClassifier.threshold cl - epsilon) *
        a (feature (WeakClassifier.feature_idx cl)) <=
        WeakClassifier.threshold cl - epsilon)%Q.

(** What the stage constraint credits classifier [c] with: [pass_val] when
    its feature variable is [1], [fail_val] otherwise; and the score of a
    stage on that reading. *)
Definition credited (b : assignment) (c : WeakClassifier.t) : Q :=
  if Qeq_bool (b (feature (WeakClassifier.feature_idx c))) 1
  then WeakClassifier.pass_val c else WeakClassifier.fail_val c.

Definition indicator_score (b : assignment) (stage : Stage.t) : Q :=
  sum_list (credited b <$> Stage.weak_classifiers stage).

(** The pixel grid of an assignment: the array [find_min_face] builds,
    after the script's [im *= 256.]. *)
Definition solution_rows (cascade : Cascade.t) (a : assignment) : list (list Q) :=
  (λ y, (λ x, a (pixel x y)) <$> range (Cascade.width cascade))
    <$> range (Cascade.height cascade).

Definition solution_grid (cascade : Cascade.t) (a : assignment) : ndarray :=
  imul 256 (numpy_array (solution_rows cascade a)).


(** ** Example data *)

Definition leaf (t s : string) : Element := mkElement t (Some s) [].
Definition node (t : string) (cs : list Element) : Element := mkElement t None cs.

(** A cascade description of one stage with one weak classifier over one
    rectangle. *)
Definition document (internal_nodes leaf_values rect : string) : Element :=
  node "opencv_storage" [
    node "cascade" [
      leaf "stageType" "BOOST";
      leaf "height" "1";
      leaf "width" "1";
      node "stages" [
        node "_" [
          leaf "maxWeakCount" "1";
          leaf "stageThreshold" "0";
          node "weakClassifiers" [
            node "_" [
              leaf "internalNodes" internal_nodes;
              leaf "leafValues" leaf_values ] ] ] ];
      node "features" [
        node "_" [ node "rects" [ leaf "_" rect ] ] ] ] ].

(** One pixel of weight [-1]; the classifier passes from [-1/2] on and
    rewards the absence of the feature ([pass_val = -1 < fail_val = 1]). *)
Definition tie_document : Element :=
  document " 0 -1 0 -0.5" "1 -1" "0 0 1 1 -1".

Definition tie_cascade : Cascade.t :=
  Cascade.mk 1 1
    [Stage.mk 0 [WeakClassifier.mk 0 (- (1 # 2)) 1 (-1)]]
    [[Rect.mk 0 0 1 1 (-1)]].

(** Pixel [1/2], feature variable [0]. *)
Definition tie_solution : assignment :=
  λ v, match v with pixel _ _ => (1 # 2)%Q | feature _ => 0%Q end.

Definition tie_solver (m : Model.t) : option assignment := Some tie_solution.

(** A record whose second token is not the sentinel. *)
Definition unsupported_document : Element :=
  document "0 1 0 0.5" "-1 1" "0 0 1 1 1".

(** Three stages over a feature of two overlapping rectangles, the second
    of which leaves the 2 by 3 window. *)
Definition sample_cascade : Cascade.t :=
  Cascade.mk 3 2
    [Stage.mk 0 [WeakClassifier.mk 0 (1 # 2) (-1) 1];
     Stage.mk 1 [WeakClassifier.mk 0 4 (-1) 1; WeakClassifier.mk 0 (1 # 4) (-1) 1];
     Stage.mk 0 [WeakClassifier.mk 0 0 (-1) 1]]
    [[Rect.mk 0 0 2 2 1; Rect.mk 1 1 5 5 (1 # 2)]].

Definition sample_image : ndarray :=
  NDArray 2 3 [[256; 256; 0]; [256; 256; 128]]%Q.

Definition sample_world : world := World [sample_image] [].

(** ** The quantization table

    [make_quant_table] works on an integer array.  The element type of
    [numpy.array] over Python ints is the platform's default integer, 32 or
    64 bits wide; arithmetic wraps at that width. *)

Inductive dtype : Type := int32 | int64.

Definition dtype_eqb (a b : dtype) : bool :=
  match a, b with
  | int32, int32 | int64, int64 => true
  | _, _ => false
  end.

Definition bits (dt : dtype) : Z :=
  match dt with int32 => 32 | int64 => 64 end.

(** The value a [bits dt]-bit signed integer holds for [z]. *)
Definition wrap (dt : dtype) (z : Z) : Z :=
  ((z + 2 ^ (bits dt - 1)) mod 2 ^ bits dt - 2 ^ (bits dt - 1))%Z.

Record intarray : Type := IntArray {
  dtype_of : dtype;
  int_cells : list (list Z)
}.

(** An elementwise operation with a Python int; the result keeps the type. *)
Definition int_map (f : Z → Z) (a : intarray) : intarray :=
  IntArray (dtype_of a)
           ((λ row : list Z, (λ v, wrap (dtype_of a) (f v)) <$> row)
              <$> int_cells a).

(** [numpy.clip(a, lo, hi)] *)
Definition numpy_clip (a : intarray) (lo hi : Z) : intarray :=
  int_map (λ v, Z.min (Z.max v lo) hi) a.

Definition BASIC_QUANT_TABLE (default_int : dtype) : intarray :=
  IntArray default_int
    [[16;  11;  10;  16;  24;  40;  51;  61];
     [12;  12;  14;  19;  26;  58;  60;  55];
     [14;  13;  16;  24;  40;  57;  69;  56];
     [14;  17;  22;  29;  51;  87;  80;  62];
     [18;  22;  37;  56;  68; 109; 103;  77];
     [24;  35;  55;  64;  81; 104; 113;  92];
     [49;  64;  78;  87; 103; 121; 120; 101];
     [72;  92;  95;  98; 112; 100; 103;  99]]%Z.

(** [make_quant_table(quality)] for an integer [quality]; [/] is the floor
    division of Python 2 on integer arrays. *)
Definition make_quant_table (default_int : dtype) (quality : Z) : outcome intarray :=
  let quality := Z.min 100 (Z.max 1 quality) in
  let scale_factor :=
    if (quality <? 50)%Z then (5000 / quality)%Z else (200 - quality * 2)%Z in
  let out :=
    numpy_clip
      (int_map (λ v, v / 100)%Z
         (int_map (λ v, v + 50)%Z
            (int_map (λ v, v * scale_factor)%Z (BASIC_QUANT_TABLE default_int))))
      0 255 in
  let! _ := assert (dtype_eqb (dtype_of out) int32) in
  Ok out.

(** ** Notions of the further properties *)

(** The tokens put together again with single spaces. *)
Fixpoint join_space (l : list string) : string :=
  match l with
  | [] => EmptyString
  | [s] => s
  | s :: l' => (s ++ String " "%char (join_space l'))%string
  end.

Fixpoint has_space (s : string) : bool :=
  match s with
  | EmptyString => false
  | String c s' => Ascii.eqb c " "%char || has_space s'
  end.

(** The tokens a loaded weak classifier comes from: the sentinels, the
    feature index and the threshold in [internalNodes], [fail_val] before
    [pass_val] in [leafValues]. *)
Definition classifier_of_tokens (int : string → outcome Z)
    (float : string → outcome Q) (cn : Element) (cl : WeakClassifier.t) : Prop :=
  ∃ t2 t3 f p rest rest',
    Cascade._split_text_content (find ["internalNodes"] cn)
      = Ok ("0" :: "-1" :: t2 :: t3 :: rest)%string ∧
    Cascade._split_text_content (find ["leafValues"] cn) = Ok (f :: p :: rest') ∧
    int t2 = Ok (WeakClassifier.feature_idx cl) ∧
    float t3 = Ok (WeakClassifier.threshold cl) ∧
    float f = Ok (WeakClassifier.fail_val cl) ∧
    float p = Ok (WeakClassifier.pass_val cl).

(** The tokens a loaded rectangle comes from. *)
Definition rect_of_tokens (int : string → outcome Z)
    (float : string → outcome Q) (rn : Element) (r : Rect.t) : Prop :=
  ∃ tx ty tw th tweight rest,
    Cascade._split_text_content (Some rn)
      = Ok (tx :: ty :: tw :: th :: tweight :: rest) ∧
    int tx = Ok (Rect.x r) ∧ int ty = Ok (Rect.y r) ∧
    int tw = Ok (Rect.w r) ∧ int th = Ok (Rect.h r) ∧
    float tweight = Ok (Rect.weight r).

(** A span [[start, start + extent)] that begins before the window of
    length [len] and ends in it. *)
Definition straddles (len start extent : Z) : Prop :=
  (- len ≤ start < 0 ∧ 0 ≤ start + extent ∧ extent ≤ len)%Z.

(** A span that lies before the window, at most [len] away. *)
Definition lies_before (len start extent : Z) : Prop :=
  (- len ≤ start ∧ 0 ≤ extent ∧ start + extent < 0)%Z.

(** The rectangle moved right by [dx]. *)
Definition shift_right (dx : Z) (r : Rect.t) : Rect.t :=
  Rect.mk (Rect.x r + dx) (Rect.y r) (Rect.w r) (Rect.h r) (Rect.weight r).

(** The entries of two tables, compared place by place. *)
Definition table_le (a b : intarray) : Prop :=
  Forall2 (Forall2 Z.le) (int_cells a) (int_cells b).

(** One pixel of weight [-1] with a margin of [1/4]: pixel [3/4], feature
    variable [0]. *)
Definition margin_solution : assignment :=
  λ v, match v with pixel _ _ => (3 # 4)%Q | feature _ => 0%Q end.

(** A window of 2 rows and 3 columns with one rectangle across its left
    edge and one before it. *)
Definition edge_cascade : Cascade.t :=
  Cascade.mk 3 2 [] [[Rect.mk (-1) 0 2 1 5; Rect.mk 0 0 1 1 1];
                     [Rect.mk 0 0 1 1 1];
                     [Rect.mk (-2) 0 1 1 7];
                     [Rect.mk 1 0 1 1 7]].

(** The scale factor [make_quant_table] derives from a quality, and the
    entry it should give for the basic entry [b] when nothing overflows. *)
Definition scale_of_quality (quality : Z) : Z :=
  let quality := Z.min 100 (Z.max 1 quality) in
  if (quality <? 50)%Z then (5000 / quality)%Z else (200 - quality * 2)%Z.

Definition quant_entry (quality b : Z) : Z :=
  Z.min 255 ((b * scale_of_quality quality + 50) / 100)%Z.

(** The 8 by 8 table that holds [v] everywhere. *)
Definition constant_table (dt : dtype) (v : Z) : intarray :=
  IntArray dt (replicate 8 (replicate 8 v)).

(** ** Further example data *)

(** An image without cells, an image of one cell and what [sample_resize]
    makes of the latter for a 2 by 3 window. *)
Definition empty_image : ndarray := NDArray 0 0 [].

Definition small_image : ndarray := NDArray 1 1 [[256]]%Q.

Definition resized_small : ndarray :=
  NDArray 2 3 [[256; 256; 256]; [256; 256; 256]]%Q.

(** A resize that always fails. *)
Definition failing_resize (a : ndarray) (dsize : Z * Z) (_ : interpolation)
  : outcome ndarray := Raise Cv2Error.

(** The second stage names a feature that does not exist. *)
Definition broken_cascade : Cascade.t :=
  Cascade.mk 3 2
    [Stage.mk 0 [WeakClassifier.mk 0 (1 # 2) (-1) 1];
     Stage.mk 0 [WeakClassifier.mk 3 0 (-1) 1]]
    [[Rect.mk 0 0 2 2 1]].


(** Pixel [1], feature variable [1]. *)
Definition plain_solution : assignment := λ v, 1%Q.


(** A solver that finds nothing. *)
Definition no_solver (m : Model.t) : option assignment := None.

(** * Arrays *)

Lemma lookup2_map_cells f a i j :
  lookup2 (map_cells f a) i j = f i j <$> lookup2 a i j.
Proof.
  unfold lookup2, map_cells; simpl.
  rewrite list_lookup_imap.
  destruct (cells a !! i) as [row|]; simpl; [|done].
  by rewrite list_lookup_imap.
Qed.

Lemma array_wf_map_cells f a : array_wf a → array_wf (map_cells f a).
Proof.
  intros [Hr Hc]. split; simpl.
  - by rewrite length_imap.
  - apply Forall_forall. intros row Hrow.
    apply elem_of_lookup_imap in Hrow as (i & r & -> & Hi).
    rewrite length_imap.
    rewrite Forall_forall in Hc. apply Hc. by eapply list_elem_of_lookup_2.
Qed.

Lemma array_wf_zeros h w : array_wf (zeros h w).
Proof.
  split; simpl.
  - by rewrite length_replicate.
  - apply Forall_replicate. by rewrite length_replicate.
Qed.

Lemma lookup2_zeros h w i j :
  lookup2 (zeros h w) i j = if decide (i < h ∧ j < w) then Some 0%Q else None.
Proof.
  unfold lookup2, zeros; simpl.
  case_decide as Hd.
  - destruct Hd. rewrite lookup_replicate_2 by done. simpl.
    by rewrite lookup_replicate_2.
  - destruct (decide (i < h)).
    + rewrite lookup_replicate_2 by done. simpl.
      apply lookup_replicate_None. lia.
    + assert (replicate h (replicate w 0%Q) !! i = None) as ->; [|done].
      apply lookup_replicate_None. lia.
Qed.

Lemma lookup2_is_Some a i j :
  array_wf a → is_Some (lookup2 a i j) ↔ i < nrows a ∧ j < ncols a.
Proof.
  intros [Hr Hc]. unfold lookup2. split.
  - intros [v Hv]. destruct (cells a !! i) as [row|] eqn:Hi; simpl in Hv; [|done].
    split.
    + rewrite <- Hr. by eapply lookup_lt_Some.
    + rewrite Forall_forall in Hc. rewrite <- (Hc row).
      * by eapply lookup_lt_Some.
      * by eapply list_elem_of_lookup_2.
  - intros [Hi Hj]. rewrite <- Hr in Hi.
    apply lookup_lt_is_Some in Hi as [row Hrow]. rewrite Hrow. simpl.
    apply lookup_lt_is_Some. rewrite Forall_forall in Hc. rewrite (Hc row); [done|].
    by eapply list_elem_of_lookup_2.
Qed.

Lemma nrows_map_cells f a : nrows (map_cells f a) = nrows a.
Proof. reflexivity. Qed.

Lemma ncols_map_cells f a : ncols (map_cells f a) = ncols a.
Proof. reflexivity. Qed.

Lemma lookup2_add_rect a r i j :
  lookup2 (add_rect a r) i j =
  (λ v, if slice_region (nrows a) (ncols a) r i j
        then (v + Rect.weight r)%Q else v) <$> lookup2 a i j.
Proof. unfold add_rect, iadd_slice. by rewrite lookup2_map_cells. Qed.

Lemma foldl_add_rect_shape f : ∀ a,
  nrows (foldl add_rect a f) = nrows a ∧
  ncols (foldl add_rect a f) = ncols a ∧
  (array_wf a → array_wf (foldl add_rect a f)).
Proof.
  induction f as [|r f IH]; intros a; simpl; [done|].
  destruct (IH (add_rect a r)) as (Hr & Hc & Hwf).
  rewrite Hr, Hc. split; [done|split; [done|]].
  intros Ha. apply Hwf. by apply array_wf_map_cells.
Qed.

Lemma sum_list_cons x l : sum_list (x :: l) = (x + sum_list l)%Q.
Proof. reflexivity. Qed.

Lemma sum_list_app l1 l2 : (sum_list (l1 ++ l2) == sum_list l1 + sum_list l2)%Q.
Proof.
  induction l1 as [|x l1 IH].
  - change (sum_list l2 == 0 + sum_list l2)%Q. lra.
  - change (x + sum_list (l1 ++ l2) == (x + sum_list l1) + sum_list l2)%Q.
    rewrite IH. lra.
Qed.

Lemma weight_sum_cons region r f i j :
  weight_sum region (r :: f) i j =
  ((if region r i j then Rect.weight r else 0) + weight_sum region f i j)%Q.
Proof. reflexivity. Qed.

Lemma weight_sum_ext region1 region2 f i j :
  (∀ r, r ∈ f → region1 r i j = region2 r i j) →
  weight_sum region1 f i j = weight_sum region2 f i j.
Proof.
  induction f as [|r f IH]; intros H; [done|].
  rewrite !weight_sum_cons, H, IH; [done| |by left].
  intros r' Hr'. apply H. by right.
Qed.

Lemma weight_sum_none region f i j :
  (∀ r, r ∈ f → region r i j = false) → (weight_sum region f i j == 0)%Q.
Proof.
  induction f as [|r f IH]; intros H; [done|].
  rewrite weight_sum_cons, H, IH; [lra| |by left].
  intros r' Hr'. apply H. by right.
Qed.

(** The cell of a grid after the rectangles of a feature were added. *)
Lemma lookup2_foldl_add_rect f : ∀ a i j v,
  lookup2 a i j = Some v →
  ∃ v', lookup2 (foldl add_rect a f) i j = Some v' ∧
        (v' == v + weight_sum (slice_region (nrows a) (ncols a)) f i j)%Q.
Proof.
  induction f as [|r f IH]; intros a i j v Hv; simpl.
  - exists v. split; [done|]. unfold weight_sum, sum_list. simpl. lra.
  - edestruct (IH (add_rect a r) i j) as (v' & Hv' & Heq).
    { rewrite lookup2_add_rect, Hv. reflexivity. }
    exists v'. split; [done|].
    rewrite Heq, weight_sum_cons. unfold add_rect, iadd_slice.
    rewrite nrows_map_cells, ncols_map_cells.
    destruct (slice_region _ _ r i j); lra.
Qed.

Lemma lookup2_foldl_add_rect_None f : ∀ a i j,
  lookup2 a i j = None → lookup2 (foldl add_rect a f) i j = None.
Proof.
  induction f as [|r f IH]; intros a i j Hv; simpl; [done|].
  apply IH. by rewrite lookup2_add_rect, Hv.
Qed.

(** * Running the code *)

Lemma alter_fresh (f : ndarray → ndarray) (l : list ndarray) a :
  alter f (length l) (l ++ [a]) = l ++ [f a].
Proof.
  replace (length l) with (length l + 0) by lia.
  by rewrite alter_app_r.
Qed.

Lemma lookup_fresh (l : list ndarray) a : (l ++ [a]) !! length l = Some a.
Proof. by rewrite list_lookup_middle. Qed.

Lemma for_each_add_rect_run f : ∀ out s,
  for_each (λ r : Rect.t,
      let '(Rect.mk x y w h weight) := r in
      modify out (iadd_slice y (y + h) x (x + w) weight)) f s =
  (Ok tt, World (alter (λ a, foldl add_rect a f) out (heap s)) (trace s)).
Proof.
  induction f as [|r f IH]; intros out s; simpl.
  - unfold ret. rewrite list_alter_id by done. by destruct s.
  - unfold bind. destruct r as [x y w h weight]. unfold modify at 1.
    rewrite IH. simpl. f_equal. f_equal.
    by rewrite list_alter_alter_eq.
Qed.

Lemma feature_to_array_run self idx s :
  ∃ ext,
    Cascade.feature_to_array self idx s =
      (match feature_array self idx with
       | Ok _ => Ok (length (heap s))
       | Raise e => Raise e
       end, World (heap s ++ ext) (trace s)) ∧
    (∀ g, feature_array self idx = Ok g → ext = [g]).
Proof.
  unfold Cascade.feature_to_array, feature_array, numpy_zeros, bind.
  destruct ((Cascade.height self <? 0)%Z || (Cascade.width self <? 0)%Z).
  - exists []. split; [|done]. unfold raise. rewrite app_nil_r. by destruct s.
  - unfold alloc, lift. simpl.
    destruct (getitem (Cascade.features self) idx) as [f|e]; simpl.
    + eexists. split; [|intros g [= <-]; reflexivity].
      rewrite for_each_add_rect_run. simpl. unfold ret.
      by rewrite alter_fresh.
    + eexists. split; [reflexivity|done].
Qed.

Lemma classifier_loop_run self im nim stage_idx cls : ∀ total s,
  heap s !! im = Some nim →
  ∃ ext,
    Cascade.classifier_loop self im stage_idx cls total s =
      ((classifier_run self nim stage_idx cls total).1,
       World (heap s ++ ext)
             (trace s ++ (classifier_run self nim stage_idx cls total).2)).
Proof.
  induction cls as [|cl cls IH]; intros total s Him; simpl.
  - exists []. unfold ret. rewrite !app_nil_r. by destruct s.
  - unfold bind at 1. unfold emit at 1.
    unfold bind at 1.
    destruct (feature_to_array_run self (WeakClassifier.feature_idx cl)
                (World (heap s) (trace s ++ [Evaluated stage_idx cl])))
      as (ext & -> & Hext).
    unfold vote. simpl.
    destruct (feature_array self (WeakClassifier.feature_idx cl)) as [g|e]; simpl.
    + rewrite (Hext g eq_refl).
      unfold bind at 1. unfold deref at 1. simpl. rewrite lookup_fresh.
      unfold bind at 1. unfold deref at 1. simpl.
      rewrite (lookup_app_l_Some _ _ _ _ Him).
      set (s1 := World (heap s ++ [g]) (trace s ++ [Evaluated stage_idx cl])).
      assert ((if Qle_bool (WeakClassifier.threshold cl) (numpy_sum (multiply g nim))
               then Cascade.classifier_loop self im stage_idx cls
                      (total + WeakClassifier.pass_val cl)%Q
               else Cascade.classifier_loop self im stage_idx cls
                      (total + WeakClassifier.fail_val cl)%Q) s1 =
              Cascade.classifier_loop self im stage_idx cls
                (total + contribution cl g nim)%Q s1) as ->.
      { unfold contribution. by destruct (Qle_bool _ _). }
      destruct (IH (total + contribution cl g nim)%Q s1) as (ext' & -> ).
      { subst s1. simpl. by apply lookup_app_l_Some. }
      destruct (classifier_run self nim stage_idx cls _) as [r ev]. simpl.
      exists ([g] ++ ext'). by rewrite <- !app_assoc.
    + exists ext. done.
Qed.

Lemma stage_loop_run self im nim stages : ∀ stage_idx s,
  heap s !! im = Some nim →
  ∃ ext,
    Cascade.stage_loop self im stage_idx stages s =
      ((stage_run self nim stage_idx stages).1,
       World (heap s ++ ext) (trace s ++ (stage_run self nim stage_idx stages).2)).
Proof.
  induction stages as [|stage stages IH]; intros stage_idx s Him; simpl.
  - exists []. unfold ret. rewrite !app_nil_r. by destruct s.
  - unfold bind at 1.
    destruct (classifier_loop_run self im nim stage_idx
                (Stage.weak_classifiers stage) 0%Q s Him) as (ext & ->).
    destruct (classifier_run self nim stage_idx _ _) as [[total|e] ev]; simpl.
    + destruct (Qlt_bool total (Stage.threshold stage)); simpl.
      * exists ext. unfold bind, emit, ret. simpl. by rewrite app_assoc.
      * edestruct (IH (stage_idx + 1)%Z
                      (World (heap s ++ ext) (trace s ++ ev))) as (ext' & ->).
        { simpl. by apply lookup_app_l_Some. }
        destruct (stage_run self nim (stage_idx + 1)%Z stages) as [r ev'].
        simpl. exists (ext ++ ext'). by rewrite !app_assoc.
    + exists ext. done.
Qed.

Section DetectRun.
Variable cv2_resize : ndarray → Z * Z → interpolation → outcome ndarray.

Lemma detect_run_spec self im a s :
  heap s !! im = Some a →
  ∃ ext,
    Cascade.detect cv2_resize self im s =
      ((detect_run cv2_resize self a).1,
       World (heap s ++ ext) (trace s ++ (detect_run cv2_resize self a).2)).
Proof.
  intros Him. unfold Cascade.detect, detect_run, normalized_image.
  unfold bind at 1. unfold deref at 1. rewrite Him.
  unfold bind at 1.
  set (k := (256 * inject_Z (Cascade.height self * Cascade.width self))%Q).
  destruct (decide (shape a ≠ (Cascade.height self, Cascade.width self))).
  - unfold bind at 1. unfold lift.
    destruct (cv2_resize a _ INTER_AREA) as [r|e]; simpl.
    + unfold bind at 1. unfold deref at 1. simpl. rewrite lookup_fresh.
      unfold bind at 1. unfold alloc at 1. simpl.
      unfold bind at 1. unfold modify at 1. simpl.
      rewrite length_app. simpl.
      replace (length (heap s) + 1) with (length (heap s ++ [r]))
        by (rewrite length_app; simpl; lia).
      rewrite alter_fresh.
      edestruct (stage_loop_run self (length (heap s ++ [r])) (idiv k r)
                   (Cascade.stages self) 0%Z) as (ext & ->).
      { simpl. apply lookup_fresh. }
      simpl. exists ([r] ++ [idiv k r] ++ ext). by rewrite <- !app_assoc.
    + exists []. rewrite !app_nil_r. by destruct s.
  - unfold ret at 1. simpl.
    unfold bind at 1. unfold deref at 1. rewrite Him.
    unfold bind at 1. unfold alloc at 1. simpl.
    unfold bind at 1. unfold modify at 1. simpl.
    rewrite alter_fresh.
    edestruct (stage_loop_run self (length (heap s)) (idiv k a)
                 (Cascade.stages self) 0%Z) as (ext & ->).
    { simpl. apply lookup_fresh. }
    simpl. exists ([idiv k a] ++ ext). by rewrite <- !app_assoc.
Qed.

Lemma detect_invalid self im s :
  heap s !! im = None →
  Cascade.detect cv2_resize self im s = (Raise InvalidReference, s).
Proof.
  intros Him. unfold Cascade.detect, bind at 1. unfold deref at 1.
  by rewrite Him.
Qed.
End DetectRun.

(** * Feature expansion *)

Ltac bool_lia :=
  repeat match goal with
         | |- context [(?a <=? ?b)%Z] => destruct (Z.leb_spec a b)
         | |- context [(?a <? ?b)%Z] => destruct (Z.ltb_spec a b)
         end; simpl; first [reflexivity | exfalso; lia].

Lemma in_slice_nonneg start len_ stop k :
  (0 ≤ start)%Z → (0 ≤ stop)%Z →
  in_slice start stop len_ k =
  ((start <=? Z.of_nat k) && (Z.of_nat k <? Z.min stop (Z.of_nat len_)))%Z.
Proof.
  intros Hs Ht. unfold in_slice, slice_bound.
  destruct (Z.ltb_spec start 0); [lia|].
  destruct (Z.ltb_spec stop 0); [lia|].
  bool_lia.
Qed.

Lemma slice_region_clipped h w r i j :
  rect_wf r →
  slice_region h w r i j = clipped_footprint (Z.of_nat h) (Z.of_nat w) r i j.
Proof.
  intros (Hx & Hy & Hw & Hh). unfold slice_region, clipped_footprint.
  rewrite !in_slice_nonneg by lia. by rewrite andb_assoc.
Qed.

Lemma clipped_footprint_inside height width r i j :
  (Z.of_nat i < height)%Z → (Z.of_nat j < width)%Z →
  clipped_footprint height width r i j = footprint r i j.
Proof. intros Hi Hj. unfold clipped_footprint, footprint. bool_lia. Qed.

Lemma clipped_footprint_outside height width r i j :
  (height ≤ Z.of_nat i ∨ width ≤ Z.of_nat j)%Z →
  clipped_footprint height width r i j = false.
Proof. intros H. unfold clipped_footprint. bool_lia. Qed.

Lemma feature_grid_shape h w f :
  nrows (feature_grid h w f) = h ∧ ncols (feature_grid h w f) = w ∧
  array_wf (feature_grid h w f).
Proof.
  unfold feature_grid.
  destruct (foldl_add_rect_shape f (zeros h w)) as (-> & -> & Hwf).
  split; [done|]. split; [done|]. apply Hwf, array_wf_zeros.
Qed.

(** Every cell of the expanded feature, inside the grid or not. *)
Lemma feature_grid_cell h w f i j :
  Forall rect_wf f →
  (cell (feature_grid h w f) i j ==
   weight_sum (clipped_footprint (Z.of_nat h) (Z.of_nat w)) f i j)%Q.
Proof.
  intros Hf. unfold cell, feature_grid.
  rewrite <- (weight_sum_ext (slice_region h w)).
  2:{ intros r Hr. apply slice_region_clipped.
      rewrite Forall_forall in Hf. by apply Hf. }
  pose proof (lookup2_zeros h w i j) as Hz. case_decide as Hd.
  - destruct (lookup2_foldl_add_rect f _ _ _ _ Hz) as (v' & -> & Hv').
    simpl. rewrite Hv'. simpl. lra.
  - rewrite (lookup2_foldl_add_rect_None f _ _ _ Hz). simpl.
    symmetry. apply weight_sum_none. intros r Hr.
    rewrite slice_region_clipped by (rewrite Forall_forall in Hf; by apply Hf).
    apply clipped_footprint_outside. lia.
Qed.

Lemma feature_array_ok self feature_idx f :
  (0 ≤ Cascade.height self)%Z → (0 ≤ Cascade.width self)%Z →
  getitem (Cascade.features self) feature_idx = Ok f →
  feature_array self feature_idx =
  Ok (feature_grid (Z.to_nat (Cascade.height self))
                   (Z.to_nat (Cascade.width self)) f).
Proof.
  intros Hh Hw Hf. unfold feature_array. rewrite Hf.
  destruct (Z.ltb_spec (Cascade.height self) 0); [lia|].
  destruct (Z.ltb_spec (Cascade.width self) 0); [lia|]. done.
Qed.

(** C6. Additivity of feature expansion: for a feature of the data model
    (rectangles with non-negative [x], [y], [w], [h]) in a cascade of
    non-negative size, [feature_to_array] returns a new [height] by
    [width] array whose cell [(i, j)] is the sum of the weights of the
    rectangles whose footprint [[y, y+h) x [x, x+w)] holds [(i, j)]; for a
    feature of two rectangles, a cell in both footprints holds the sum of
    both weights. *)
Theorem feature_to_array_additive self feature_idx f s :
  (0 ≤ Cascade.height self)%Z → (0 ≤ Cascade.width self)%Z →
  getitem (Cascade.features self) feature_idx = Ok f →
  Forall rect_wf f →
  ∃ g,
    Cascade.feature_to_array self feature_idx s =
      (Ok (length (heap s)), World (heap s ++ [g]) (trace s)) ∧
    shape g = (Cascade.height self, Cascade.width self) ∧
    (∀ i j, (Z.of_nat i < Cascade.height self)%Z →
            (Z.of_nat j < Cascade.width self)%Z →
            (cell g i j == weight_sum footprint f i j)%Q) ∧
    (∀ r1 r2 i j, f = [r1; r2] →
            (Z.of_nat i < Cascade.height self)%Z →
            (Z.of_nat j < Cascade.width self)%Z →
            footprint r1 i j = true → footprint r2 i j = true →
            (cell g i j == Rect.weight r1 + Rect.weight r2)%Q).
Proof.
  intros Hh Hw Hf Hwf.
  destruct (feature_to_array_run self feature_idx s) as (ext & Hrun & Hext).
  rewrite (feature_array_ok _ _ _ Hh Hw Hf) in Hrun, Hext.
  rewrite (Hext _ eq_refl) in Hrun. eexists. split; [exact Hrun|].
  destruct (feature_grid_shape (Z.to_nat (Cascade.height self))
              (Z.to_nat (Cascade.width self)) f) as (Hr & Hc & _).
  assert (Hcell : ∀ i j, (Z.of_nat i < Cascade.height self)%Z →
            (Z.of_nat j < Cascade.width self)%Z →
            (cell (feature_grid (Z.to_nat (Cascade.height self))
                     (Z.to_nat (Cascade.width self)) f) i j ==
             weight_sum footprint f i j)%Q).
  { intros i j Hi Hj. rewrite feature_grid_cell by done.
    rewrite (weight_sum_ext _ footprint); [reflexivity|].
    intros r _. apply clipped_footprint_inside; lia. }
  split; [|split; [exact Hcell|]].
  - unfold shape. rewrite Hr, Hc. f_equal; lia.
  - intros r1 r2 i j -> Hi Hj H1 H2. rewrite Hcell by done.
    unfold weight_sum, sum_list. simpl. rewrite H1, H2. lra.
Qed.

(** C9. Feature expansion is total on rectangles that leave the grid: for
    non-negative [x], [y], [w], [h] the call returns a new array of
    [height] rows of [width] cells, and each rectangle's weight is added on
    [[y, min(y+h, height)) x [x, min(x+w, width))] only. *)
Theorem feature_to_array_clips self feature_idx f s :
  (0 ≤ Cascade.height self)%Z → (0 ≤ Cascade.width self)%Z →
  getitem (Cascade.features self) feature_idx = Ok f →
  Forall rect_wf f →
  ∃ g,
    Cascade.feature_to_array self feature_idx s =
      (Ok (length (heap s)), World (heap s ++ [g]) (trace s)) ∧
    shape g = (Cascade.height self, Cascade.width self) ∧
    array_wf g ∧
    (∀ i j, (cell g i j ==
             weight_sum (clipped_footprint (Cascade.height self)
                           (Cascade.width self)) f i j)%Q).
Proof.
  intros Hh Hw Hf Hwf.
  destruct (feature_to_array_run self feature_idx s) as (ext & Hrun & Hext).
  rewrite (feature_array_ok _ _ _ Hh Hw Hf) in Hrun, Hext.
  rewrite (Hext _ eq_refl) in Hrun. eexists. split; [exact Hrun|].
  destruct (feature_grid_shape (Z.to_nat (Cascade.height self))
              (Z.to_nat (Cascade.width self)) f) as (Hr & Hc & Hg).
  split; [|split; [exact Hg|]].
  - unfold shape. rewrite Hr, Hc. f_equal; lia.
  - intros i j. rewrite feature_grid_cell by done.
    by rewrite !Z2Nat.id by done.
Qed.

(** * The detector *)

Lemma Qlt_bool_iff a b : Qlt_bool a b = true ↔ (a < b)%Q.
Proof.
  unfold Qlt_bool. rewrite negb_true_iff.
  split.
  - intros H. apply Qnot_le_lt. intros Hle.
    apply Qle_bool_iff in Hle. congruence.
  - intros H. destruct (Qle_bool b a) eqn:E; [|done].
    apply Qle_bool_iff in E. lra.
Qed.

Lemma Qlt_bool_false a b : Qlt_bool a b = false ↔ (b <= a)%Q.
Proof.
  unfold Qlt_bool. rewrite negb_false_iff. apply Qle_bool_iff.
Qed.

(** The loop over the classifiers of a stage adds up their votes. *)
Lemma classifier_run_score self nim k cls : ∀ total,
  match for_collect (vote self nim) cls with
  | Ok vs => ∃ t, classifier_run self nim k cls total = (Ok t, Evaluated k <$> cls) ∧
                  (t == total + sum_list vs)%Q
  | Raise e => ∃ ev, classifier_run self nim k cls total = (Raise e, ev)
  end.
Proof.
  induction cls as [|cl cls IH]; intros total; simpl.
  - exists total. split; [done|]. unfold sum_list; simpl. lra.
  - destruct (vote self nim cl) as [v|e]; simpl; [|by eexists].
    specialize (IH (total + v)%Q).
    destruct (for_collect (vote self nim) cls) as [vs|e]; simpl.
    + destruct IH as (t & -> & Ht). exists t. split; [done|].
      rewrite Ht. lra.
    + destruct IH as (ev & ->). by eexists.
Qed.

Lemma classifier_run_passes self nim k stage :
  stage_passes self nim stage →
  ∃ t, classifier_run self nim k (Stage.weak_classifiers stage) 0%Q =
         (Ok t, Evaluated k <$> Stage.weak_classifiers stage) ∧
       Qlt_bool t (Stage.threshold stage) = false.
Proof.
  intros (t & Hs & Ht). unfold stage_score in Hs.
  pose proof (classifier_run_score self nim k (Stage.weak_classifiers stage) 0%Q) as H.
  destruct (for_collect _ _) as [vs|e]; simpl in Hs; [|done].
  injection Hs as <-. destruct H as (t & -> & Heq).
  exists t. split; [done|]. apply Qlt_bool_false. lra.
Qed.

Lemma classifier_run_rejects self nim k stage :
  stage_rejects self nim stage →
  ∃ t, classifier_run self nim k (Stage.weak_classifiers stage) 0%Q =
         (Ok t, Evaluated k <$> Stage.weak_classifiers stage) ∧
       Qlt_bool t (Stage.threshold stage) = true.
Proof.
  intros (t & Hs & Ht). unfold stage_score in Hs.
  pose proof (classifier_run_score self nim k (Stage.weak_classifiers stage) 0%Q) as H.
  destruct (for_collect _ _) as [vs|e]; simpl in Hs; [|done].
  injection Hs as <-. destruct H as (t & -> & Heq).
  exists t. split; [done|]. apply Qlt_bool_iff. lra.
Qed.

Lemma stage_run_accept self nim stages : ∀ k,
  Forall (stage_passes self nim) stages →
  stage_run self nim k stages = (Ok 1%Z, evaluations k stages).
Proof.
  induction stages as [|stage stages IH]; intros k Hall; simpl; [done|].
  inversion Hall as [|? ? Hp Hrest]; subst.
  destruct (classifier_run_passes self nim k stage Hp) as (t & -> & ->).
  by rewrite IH.
Qed.

Lemma stage_run_reject self nim stages : ∀ k i stage,
  stages !! i = Some stage →
  Forall (stage_passes self nim) (take i stages) →
  stage_rejects self nim stage →
  stage_run self nim k stages =
    (Ok (- (k + Z.of_nat i))%Z,
     evaluations k (take (S i) stages) ++ [Printed (k + Z.of_nat i)%Z]).
Proof.
  induction stages as [|st stages IH]; intros k i stage Hi Hall Hrej; [done|].
  destruct i as [|i]; simpl in *.
  - injection Hi as ->.
    destruct (classifier_run_rejects self nim k stage Hrej) as (t & -> & ->).
    change (Z.of_nat 0) with 0%Z. by rewrite app_nil_r, Z.add_0_r.
  - inversion Hall as [|? ? Hp Hrest]; subst.
    destruct (classifier_run_passes self nim k st Hp) as (t & -> & ->).
    rewrite (IH (k + 1)%Z i stage Hi Hrest Hrej).
    replace (k + 1 + Z.of_nat i)%Z with (k + Z.pos (Pos.of_succ_nat i))%Z by lia.
    by rewrite app_assoc.
Qed.

(** What a returned value says about the stages. *)
Lemma stage_run_result self nim stages : ∀ k r ev,
  stage_run self nim k stages = (Ok r, ev) →
  (r = 1%Z ∧ Forall (stage_passes self nim) stages) ∨
  (∃ i stage, stages !! i = Some stage ∧
              Forall (stage_passes self nim) (take i stages) ∧
              stage_rejects self nim stage ∧ r = (- (k + Z.of_nat i))%Z).
Proof.
  induction stages as [|st stages IH]; intros k r ev Hrun; simpl in Hrun.
  - injection Hrun as <- <-. by left.
  - pose proof (classifier_run_score self nim k (Stage.weak_classifiers st) 0%Q) as Hs.
    destruct (for_collect (vote self nim) (Stage.weak_classifiers st)) as [vs|e] eqn:Hvs.
    + destruct Hs as (t & Ht & Heq). rewrite Ht in Hrun.
      destruct (Qlt_bool t (Stage.threshold st)) eqn:Hlt.
      * injection Hrun as <- <-. right. exists 0, st.
        split; [done|]. split; [by rewrite take_0|]. split; [|f_equal; lia].
        exists (sum_list vs). unfold stage_score. rewrite Hvs. split; [done|].
        apply Qlt_bool_iff in Hlt. lra.
      * assert (stage_passes self nim st) as Hp.
        { exists (sum_list vs). unfold stage_score. rewrite Hvs. split; [done|].
          apply Qlt_bool_false in Hlt. lra. }
        destruct (stage_run self nim (k + 1)%Z stages) as [r' ev'] eqn:Hrest.
        injection Hrun as -> <-.
        destruct (IH _ _ _ Hrest) as [[-> Hall]|(i & stage & Hi & Hall & Hrej & ->)].
        -- left. split; [done|]. by constructor.
        -- right. exists (S i), stage. simpl.
           split; [done|]. split; [by constructor|]. split; [done|]. lia.
    + destruct Hs as (ev0 & Hs). by rewrite Hs in Hrun.
Qed.

Lemma evaluations_index stages : ∀ k j cl,
  Evaluated j cl ∈ evaluations k stages →
  (k ≤ j < k + Z.of_nat (length stages))%Z.
Proof.
  induction stages as [|st stages IH]; intros k j cl Hin; simpl in Hin.
  - by apply elem_of_nil in Hin.
  - apply elem_of_app in Hin as [Hin|Hin].
    + apply list_elem_of_fmap in Hin as (c & [= -> ->] & _). simpl. lia.
    + apply IH in Hin. simpl. lia.
Qed.

Section DetectClaims.
Variable cv2_resize : ndarray → Z * Z → interpolation → outcome ndarray.

Lemma detect_rejects_at self im a nim s i stage :
  heap s !! im = Some a →
  normalized_image cv2_resize self a = Ok nim →
  Cascade.stages self !! i = Some stage →
  Forall (stage_passes self nim) (take i (Cascade.stages self)) →
  stage_rejects self nim stage →
  ∃ ext,
    Cascade.detect cv2_resize self im s =
      (Ok (- Z.of_nat i)%Z,
       World (heap s ++ ext)
             (trace s ++ evaluations 0 (take (S i) (Cascade.stages self))
                      ++ [Printed (Z.of_nat i)])).
Proof.
  intros Him Hnim Hi Hall Hrej.
  destruct (detect_run_spec cv2_resize self im a s Him) as (ext & Hrun).
  unfold detect_run in Hrun. rewrite Hnim in Hrun.
  rewrite (stage_run_reject self nim _ 0%Z i stage Hi Hall Hrej) in Hrun.
  simpl in Hrun. by exists ext.
Qed.

Lemma detect_accepts self im a nim s :
  heap s !! im = Some a →
  normalized_image cv2_resize self a = Ok nim →
  Forall (stage_passes self nim) (Cascade.stages self) →
  ∃ ext,
    Cascade.detect cv2_resize self im s =
      (Ok 1%Z,
       World (heap s ++ ext) (trace s ++ evaluations 0 (Cascade.stages self))).
Proof.
  intros Him Hnim Hall.
  destruct (detect_run_spec cv2_resize self im a s Him) as (ext & Hrun).
  unfold detect_run in Hrun. rewrite Hnim in Hrun.
  rewrite (stage_run_accept self nim _ 0%Z Hall) in Hrun.
  by exists ext.
Qed.

(** C2. Sequential rejection: on the normalized image, if stage [i] is
    the first whose score is below its threshold, [detect] returns [-i]
    after testing the classifiers of stages [0..i] and no other, in order;
    if every stage reaches its threshold, [detect] returns [1] after
    testing all of them. *)
Theorem detect_sequential_rejection self im a nim s :
  heap s !! im = Some a →
  normalized_image cv2_resize self a = Ok nim →
  (∀ i stage,
     Cascade.stages self !! i = Some stage →
     Forall (stage_passes self nim) (take i (Cascade.stages self)) →
     stage_rejects self nim stage →
     ∃ ext,
       Cascade.detect cv2_resize self im s =
         (Ok (- Z.of_nat i)%Z,
          World (heap s ++ ext)
                (trace s ++ evaluations 0 (take (S i) (Cascade.stages self))
                         ++ [Printed (Z.of_nat i)])) ∧
       ∀ j cl, Evaluated j cl ∈ evaluations 0 (take (S i) (Cascade.stages self))
               → (0 ≤ j ≤ Z.of_nat i)%Z) ∧
  (Forall (stage_passes self nim) (Cascade.stages self) →
     ∃ ext,
       Cascade.detect cv2_resize self im s =
         (Ok 1%Z,
          World (heap s ++ ext) (trace s ++ evaluations 0 (Cascade.stages self)))).
Proof.
  intros Him Hnim. split.
  - intros i stage Hi Hall Hrej.
    destruct (detect_rejects_at self im a nim s i stage Him Hnim Hi Hall Hrej)
      as (ext & Hrun).
    exists ext. split; [exact Hrun|].
    intros j cl Hin. apply evaluations_index in Hin.
    rewrite length_take in Hin. lia.
  - by apply (detect_accepts self im a).
Qed.

(** C5, as the code has it.  A value [detect] returns is [1], when every
    stage passes, or [-i] for the first rejecting stage [i], counted from
    [0]: it is never positive, so never [1], and it is negative exactly
    when [i] is not the first stage. *)
Theorem detect_bailout_value self im a nim s r s' :
  heap s !! im = Some a →
  normalized_image cv2_resize self a = Ok nim →
  Cascade.detect cv2_resize self im s = (Ok r, s') →
  (r = 1%Z ∧ Forall (stage_passes self nim) (Cascade.stages self)) ∨
  (∃ i stage,
     Cascade.stages self !! i = Some stage ∧
     Forall (stage_passes self nim) (take i (Cascade.stages self)) ∧
     stage_rejects self nim stage ∧
     r = (- Z.of_nat i)%Z ∧ (r ≤ 0)%Z ∧ r ≠ 1%Z ∧ ((r < 0)%Z ↔ 0 < i)).
Proof.
  intros Him Hnim Hdet.
  destruct (detect_run_spec cv2_resize self im a s Him) as (ext & Hrun).
  rewrite Hdet in Hrun. unfold detect_run in Hrun. rewrite Hnim in Hrun.
  destruct (stage_run self nim 0%Z (Cascade.stages self)) as [r0 ev] eqn:Hst.
  simpl in Hrun. injection Hrun as <- _.
  destruct (stage_run_result _ _ _ _ _ _ Hst)
    as [[-> Hall]|(i & stage & Hi & Hall & Hrej & ->)].
  - by left.
  - right. exists i, stage. repeat (split; [done || lia|]). lia.
Qed.

(** C10. [detect] leaves every array that exists before the call as it
    is, the caller's image among them: the resized image, the float copy
    that is divided in place and the feature arrays are new objects. *)
Theorem detect_preserves_input self im s :
  (∀ l a, heap s !! l = Some a →
          heap (Cascade.detect cv2_resize self im s).2 !! l = Some a) ∧
  (∀ a, heap s !! im = Some a →
        heap (Cascade.detect cv2_resize self im s).2 !! im = Some a).
Proof.
  assert (∀ l a, heap s !! l = Some a →
            heap (Cascade.detect cv2_resize self im s).2 !! l = Some a) as H.
  { intros l a Hl. destruct (heap s !! im) as [b|] eqn:Him.
    - destruct (detect_run_spec cv2_resize self im b s Him) as (ext & ->).
      simpl. by apply lookup_app_l_Some.
    - by rewrite detect_invalid. }
  split; [exact H|]. intros a. apply H.
Qed.
End DetectClaims.

(** * The loader *)

Lemma for_collect_raise {A B} (f : A → outcome B) l x :
  x ∈ l → is_ok (f x) = false → is_ok (for_collect f l) = false.
Proof.
  induction l as [|a l IH]; intros Hin Hx.
  - by apply elem_of_nil in Hin.
  - simpl. apply elem_of_cons in Hin as [->|Hin].
    + by destruct (f a).
    + destruct (f a); [|done]. simpl.
      specialize (IH Hin Hx). by destruct (for_collect f l).
Qed.

Lemma is_ok_false {A} (o : outcome A) : is_ok o = false → ∃ e, o = Raise e.
Proof. destruct o; [done|]. by eexists. Qed.

Lemma obind_not_ok {A B} (o : outcome A) (k : A → outcome B) :
  (∀ a, o = Ok a → is_ok (k a) = false) → is_ok (obind o k) = false.
Proof. intros H. destruct o; simpl; [by apply H|done]. Qed.

Section LoadClaims.
Variable int : string → outcome Z.
Variable float : string → outcome Q.

Lemma load_classifier_bad_sentinel classifier_node sp :
  Cascade._split_text_content (find ["internalNodes"] classifier_node) = Ok sp →
  sp !! 0 ≠ Some "0"%string ∨ sp !! 1 ≠ Some "-1"%string →
  is_ok (Cascade.load_classifier int float classifier_node) = false.
Proof.
  intros Hsp Hbad. unfold Cascade.load_classifier. rewrite Hsp. simpl.
  destruct sp as [|a [|b sp]]; [done| |].
  - unfold getitem at 1. simpl.
    destruct (String.eqb a "0"); [|done]. simpl. done.
  - unfold getitem at 1. simpl.
    destruct (String.eqb_spec a "0") as [->|Ha]; [|done]. simpl.
    unfold getitem at 1. simpl.
    destruct (String.eqb_spec b "-1") as [->|Hb]; [|done].
    simpl in Hbad. by destruct Hbad.
Qed.

(** C7. A weak classifier whose [internalNodes] record does not start with
    the tokens ["0"] and ["-1"] makes [load] raise: no cascade is
    returned. *)
Theorem load_rejects_unsupported_node root stage_node classifier_node sp :
  stage_node ∈ findall ["cascade"; "stages"; "_"]%string root →
  classifier_node ∈ findall ["weakClassifiers"; "_"]%string stage_node →
  Cascade._split_text_content (find ["internalNodes"] classifier_node) = Ok sp →
  sp !! 0 ≠ Some "0"%string ∨ sp !! 1 ≠ Some "-1"%string →
  ∃ e, Cascade.load int float root = Raise e.
Proof.
  intros Hstage Hcl Hsp Hbad. apply is_ok_false.
  assert (is_ok (Cascade.load_stage int float stage_node) = false) as Hst.
  { unfold Cascade.load_stage.
    apply obind_not_ok; intros s _. apply obind_not_ok; intros thr _.
    apply obind_not_ok; intros wcs Hwcs.
    pose proof (for_collect_raise (Cascade.load_classifier int float) _ _ Hcl
                  (load_classifier_bad_sentinel _ _ Hsp Hbad)) as H.
    by rewrite Hwcs in H. }
  unfold Cascade.load.
  apply obind_not_ok; intros s _. apply obind_not_ok; intros width _.
  apply obind_not_ok; intros s' _. apply obind_not_ok; intros height _.
  apply obind_not_ok; intros stages Hstages.
  pose proof (for_collect_raise (Cascade.load_stage int float) _ _ Hstage Hst) as H.
  by rewrite Hstages in H.
Qed.

(** When all that comes before parses, the error is the failed [assert]. *)
Lemma load_classifier_assertion classifier_node a b sp :
  Cascade._split_text_content (find ["internalNodes"] classifier_node)
    = Ok (a :: b :: sp) →
  a ≠ "0"%string ∨ b ≠ "-1"%string →
  Cascade.load_classifier int float classifier_node = Raise AssertionError.
Proof.
  intros Hsp Hbad. unfold Cascade.load_classifier. rewrite Hsp. simpl.
  unfold getitem at 1. simpl.
  destruct (String.eqb_spec a "0") as [->|Ha]; [|done]. simpl.
  unfold getitem at 1. simpl.
  destruct (String.eqb_spec b "-1") as [->|Hb]; [|done].
  by destruct Hbad.
Qed.
End LoadClaims.

(** * Building the model *)

Lemma classifier_constraint_run cascade epsilon pv fv cl s :
  ∃ ext,
    CascadeModel.classifier_constraint cascade epsilon pv fv cl s =
      (classifier_constraint_value cascade epsilon pv fv cl,
       World (heap s ++ ext) (trace s)).
Proof.
  unfold CascadeModel.classifier_constraint, classifier_constraint_value,
    scaled_feature_array.
  unfold bind at 1.
  destruct (feature_to_array_run cascade (WeakClassifier.feature_idx cl) s)
    as (ext & -> & Hext).
  destruct (feature_array cascade (WeakClassifier.feature_idx cl)) as [g|e]; simpl;
    [|by exists ext].
  rewrite (Hext g eq_refl).
  unfold bind at 1. unfold modify at 1. simpl. rewrite alter_fresh.
  unfold bind at 1. unfold deref at 1. simpl. rewrite lookup_fresh.
  exists [idiv (inject_Z (Cascade.width cascade * Cascade.height cascade)) g].
  destruct (Qle_bool _ _); unfold bind, lift, ret;
    destruct (CascadeModel.pixel_sum _ _ _); simpl; try done;
    destruct (dict_get _ _); simpl; done.
Qed.

Lemma classifier_constraints_run cascade epsilon pv fv cls : ∀ model s,
  ∃ ext,
    CascadeModel.classifier_constraints cascade epsilon pv fv cls model s =
      (match for_collect (classifier_constraint_value cascade epsilon pv fv) cls with
       | Ok cts => Ok (add_constraints model cts)
       | Raise e => Raise e
       end, World (heap s ++ ext) (trace s)).
Proof.
  induction cls as [|cl cls IH]; intros model s; simpl.
  - exists []. unfold ret. rewrite app_nil_r. by destruct s.
  - unfold bind at 1.
    destruct (classifier_constraint_run cascade epsilon pv fv cl s) as (ext & ->).
    destruct (classifier_constraint_value cascade epsilon pv fv cl) as [ct|e]; simpl;
      [|by exists ext].
    destruct (IH (Model.add_constraint model ct) (World (heap s ++ ext) (trace s)))
      as (ext' & ->). simpl.
    exists (ext ++ ext'). rewrite app_assoc.
    by destruct (for_collect _ cls).
Qed.

Lemma add_constraints_app m cts1 cts2 :
  add_constraints m (cts1 ++ cts2) = add_constraints (add_constraints m cts1) cts2.
Proof. apply foldl_app. Qed.

Lemma stage_constraints_run cascade epsilon pv fv stages : ∀ model s,
  ∃ ext,
    CascadeModel.stage_constraints cascade epsilon pv fv stages model s =
      (match for_collect (stage_constraints_value cascade epsilon pv fv) stages with
       | Ok ctss => Ok (add_constraints model (concat ctss))
       | Raise e => Raise e
       end, World (heap s ++ ext) (trace s)).
Proof.
  induction stages as [|stage stages IH]; intros model s; simpl.
  - exists []. unfold ret. rewrite app_nil_r. by destruct s.
  - unfold bind at 1. unfold stage_constraints_value at 1.
    destruct (classifier_constraints_run cascade epsilon pv fv
                (Stage.weak_classifiers stage) model s) as (ext & ->).
    destruct (for_collect (classifier_constraint_value _ _ _ _) _) as [cts|e];
      simpl; [|by exists ext].
    unfold bind at 1. unfold lift at 1.
    destruct (CascadeModel.stage_constraint epsilon fv stage) as [ct|e]; simpl;
      [|by exists ext].
    destruct (IH (Model.add_constraint (add_constraints model cts) ct)
                (World (heap s ++ ext) (trace s))) as (ext' & ->). simpl.
    exists (ext ++ ext'). rewrite app_assoc.
    destruct (for_collect _ stages) as [ctss|e]; simpl; [|done].
    rewrite !add_constraints_app. done.
Qed.

Lemma init_run cascade epsilon s :
  ∃ ext,
    CascadeModel.init cascade epsilon s =
      (init_value cascade epsilon, World (heap s ++ ext) (trace s)).
Proof.
  unfold CascadeModel.init, init_value.
  destruct (CascadeModel.make_pixel_vars cascade Model.new) as [m1 pv].
  destruct (CascadeModel.make_feature_vars cascade m1) as [m2 fv].
  unfold bind.
  destruct (stage_constraints_run cascade epsilon pv fv (Cascade.stages cascade) m2 s)
    as (ext & ->).
  exists ext. by destruct (for_collect _ _).
Qed.

(** ** The variables *)

Lemma range_lookup n (i : nat) :
  range n !! i = if decide (Z.of_nat i < n)%Z then Some (Z.of_nat i) else None.
Proof.
  unfold range. rewrite list_lookup_fmap. case_decide.
  - rewrite lookup_seq_lt by lia. done.
  - rewrite lookup_seq_ge by lia. done.
Qed.

Lemma elem_of_range n k : k ∈ range n ↔ (0 ≤ k < n)%Z.
Proof.
  unfold range. rewrite list_elem_of_fmap. split.
  - intros (i & -> & Hi). apply elem_of_seq in Hi. lia.
  - intros Hk. exists (Z.to_nat k). split; [lia|]. apply elem_of_seq. lia.
Qed.

Lemma elem_of_pixels cascade y x :
  (y, x) ∈ pixels cascade ↔
  (0 ≤ y < Cascade.height cascade ∧ 0 ≤ x < Cascade.width cascade)%Z.
Proof.
  unfold pixels. rewrite list_elem_of_bind. split.
  - intros (y' & Hin & Hy). apply list_elem_of_bind in Hin as (x' & Hin & Hx).
    apply list_elem_of_singleton in Hin as [= -> ->].
    by rewrite elem_of_range in Hy, Hx.
  - intros [Hy Hx]. exists y. rewrite elem_of_range. split; [|done].
    apply list_elem_of_bind. exists x. rewrite elem_of_range. split; [|done].
    by apply list_elem_of_singleton.
Qed.

Lemma make_pixel_vars_fold keys : ∀ m d,
  let r := foldl CascadeModel.add_pixel_var (m, d) keys in
  Model.continuous_vars r.1 =
    Model.continuous_vars m ++ ((λ '(y, x), (pixel x y, 0%Q, 1%Q)) <$> keys) ∧
  Model.binary_vars r.1 = Model.binary_vars m ∧
  Model.constraints r.1 = Model.constraints m ∧
  Model.objective r.1 = Model.objective m ∧
  (∀ x y, r.2 !! (x, y) =
          if decide ((y, x) ∈ keys) then Some (pixel x y) else d !! (x, y)).
Proof.
  induction keys as [|[y0 x0] keys IH]; intros m d; simpl.
  - rewrite app_nil_r. split_and!; done.
  - destruct (IH (Model.continuous_var m (pixel x0 y0) 0 1).1
                 (<[(x0, y0) := pixel x0 y0]> d)) as (H1 & H2 & H3 & H4 & H5).
    simpl in *. rewrite H1, H2, H3, H4. simpl. rewrite <- app_assoc. simpl.
    split_and!; try done.
    intros x y. rewrite H5.
    destruct (decide ((y, x) ∈ keys)) as [Hin|Hin].
    + rewrite decide_True; [done|by right].
    + destruct (decide ((y, x) = (y0, x0))) as [[= -> ->]|Hne].
      * rewrite lookup_insert_eq. rewrite decide_True; [done|by left].
      * rewrite lookup_insert_ne by congruence.
        rewrite decide_False; [done|].
        intros [?|?]%elem_of_cons; done.
Qed.

Lemma make_feature_vars_fold keys : ∀ m d,
  let r := foldl CascadeModel.add_feature_var (m, d) keys in
  Model.continuous_vars r.1 = Model.continuous_vars m ∧
  Model.binary_vars r.1 = Model.binary_vars m ++ (feature <$> keys) ∧
  Model.constraints r.1 = Model.constraints m ∧
  Model.objective r.1 = Model.objective m ∧
  (∀ idx, r.2 !! idx =
          if decide (idx ∈ keys) then Some (feature idx) else d !! idx).
Proof.
  induction keys as [|k keys IH]; intros m d; simpl.
  - rewrite app_nil_r. split_and!; done.
  - destruct (IH (Model.binary_var m (feature k)).1
                 (<[k := feature k]> d)) as (H1 & H2 & H3 & H4 & H5).
    simpl in *. rewrite H1, H2, H3, H4. simpl. rewrite <- app_assoc. simpl.
    split_and!; try done.
    intros idx. rewrite H5.
    destruct (decide (idx ∈ keys)) as [Hin|Hin].
    + rewrite decide_True; [done|by right].
    + destruct (decide (idx = k)) as [->|Hne].
      * rewrite lookup_insert_eq. rewrite decide_True; [done|by left].
      * rewrite lookup_insert_ne by congruence.
        rewrite decide_False; [done|].
        intros [?|?]%elem_of_cons; done.
Qed.

Lemma pixel_vars_lookup cascade m x y :
  (CascadeModel.make_pixel_vars cascade m).2 !! (x, y) =
  if decide ((y, x) ∈ pixels cascade) then Some (pixel x y) else None.
Proof.
  unfold CascadeModel.make_pixel_vars.
  destruct (make_pixel_vars_fold (pixels cascade) m ∅) as (_ & _ & _ & _ & H).
  rewrite H. by case_decide.
Qed.

Lemma feature_vars_lookup cascade m idx :
  (CascadeModel.make_feature_vars cascade m).2 !! idx =
  if decide (0 ≤ idx < Z.of_nat (length (Cascade.features cascade)))%Z
  then Some (feature idx) else None.
Proof.
  unfold CascadeModel.make_feature_vars.
  destruct (make_feature_vars_fold
              (range (Z.of_nat (length (Cascade.features cascade)))) m ∅)
    as (_ & _ & _ & _ & H).
  rewrite H. case_decide as Hin; rewrite elem_of_range in Hin.
  - by rewrite decide_True.
  - by rewrite decide_False.
Qed.

(** * The constraints *)

Lemma eval_app a s t : (eval a (s ++ t) == eval a s + eval a t)%Q.
Proof. unfold eval. rewrite fmap_app. apply sum_list_app. Qed.

Lemma eval_nil a : eval a [] = 0%Q.
Proof. reflexivity. Qed.

Lemma eval_cons a c v s : eval a ((c, v) :: s) = (c * a v + eval a s)%Q.
Proof. reflexivity. Qed.

Lemma sum_list_fmap_Qeq {A} (f g : A → Q) l :
  (∀ k, k ∈ l → (f k == g k)%Q) → (sum_list (f <$> l) == sum_list (g <$> l))%Q.
Proof.
  induction l as [|k l IH]; intros H; [reflexivity|].
  rewrite !fmap_cons, !sum_list_cons. rewrite (H k) by (by left).
  rewrite IH; [reflexivity|]. intros k' Hk'. apply H. by right.
Qed.

Lemma py_sum_sum_list l : (py_sum l == sum_list l)%Q.
Proof.
  unfold py_sum.
  assert (∀ acc, (foldl Qplus acc l == acc + sum_list l)%Q) as H.
  { induction l as [|x l IH]; intros acc.
    - change (acc == acc + 0)%Q. lra.
    - change (foldl Qplus (acc + x) l == acc + (x + sum_list l))%Q.
      rewrite IH. lra. }
  rewrite H. lra.
Qed.

Lemma for_collect_Forall2 {A B} (f : A → outcome B) l : ∀ ys,
  for_collect f l = Ok ys → Forall2 (λ x y, f x = Ok y) l ys.
Proof.
  induction l as [|x l IH]; intros ys H; simpl in H.
  - injection H as <-. constructor.
  - destruct (f x) as [y|] eqn:Hx; [|done]. simpl in H.
    destruct (for_collect f l) as [ys'|]; [|done]. simpl in H.
    injection H as <-. constructor; [done|]. by apply IH.
Qed.

Lemma cell_map_cells f a i j :
  cell (map_cells f a) i j =
  match lookup2 a i j with Some v => f i j v | None => 0%Q end.
Proof. unfold cell. rewrite lookup2_map_cells. by destruct (lookup2 a i j). Qed.

Lemma cell_idiv k g i j : (cell (idiv k g) i j == cell g i j / k)%Q.
Proof.
  unfold idiv. rewrite cell_map_cells. unfold cell.
  destruct (lookup2 g i j); simpl; [reflexivity|].
  unfold Qdiv. lra.
Qed.

Lemma cell_imul k g i j : (cell (imul k g) i j == cell g i j * k)%Q.
Proof.
  unfold imul. rewrite cell_map_cells. unfold cell.
  destruct (lookup2 g i j); simpl; [reflexivity|]. lra.
Qed.

Lemma sum_terms_cons {A} (f : A → outcome linexpr) a l :
  sum_terms f (a :: l) =
  (let! t := f a in let! ts := sum_terms f l in Ok (t ++ ts)).
Proof. reflexivity. Qed.

(** The sum the code builds, with the zero cells left out, is the sum over
    all pixels. *)
Lemma pixel_sum_eval cascade m fa :
  ∃ s, CascadeModel.pixel_sum cascade (CascadeModel.make_pixel_vars cascade m).2 fa
         = Ok s ∧
       ∀ a, (eval a s ==
             sum_list ((λ '(y, x),
                 (a (pixel x y) * cell fa (Z.to_nat y) (Z.to_nat x))%Q)
               <$> pixels cascade))%Q.
Proof.
  unfold CascadeModel.pixel_sum.
  set (pv := (CascadeModel.make_pixel_vars cascade m).2).
  assert (∀ keys, (∀ k, k ∈ keys → k ∈ pixels cascade) →
    ∃ s, sum_terms (λ '(y, x),
             let c := cell fa (Z.to_nat y) (Z.to_nat x) in
             if negb (Qeq_bool c 0)
             then let! v := dict_get pv (x, y) in Ok [(c, v)]
             else Ok []) keys = Ok s ∧
         ∀ a, (eval a s ==
               sum_list ((λ '(y, x),
                   (a (pixel x y) * cell fa (Z.to_nat y) (Z.to_nat x))%Q)
                 <$> keys))%Q) as H.
  { induction keys as [|[y x] keys IH]; intros Hin.
    - exists []. split; [done|]. intros a. reflexivity.
    - destruct IH as (s & Hs & Hev). { intros k Hk. apply Hin. by right. }
      rewrite sum_terms_cons, Hs. cbv beta iota zeta.
      destruct (Qeq_bool (cell fa (Z.to_nat y) (Z.to_nat x)) 0) eqn:Hz; simpl.
      + exists s. split; [done|]. intros a. rewrite Hev.
        apply Qeq_bool_iff in Hz. rewrite Hz. unfold fmap. lra.
      + unfold dict_get. subst pv. rewrite pixel_vars_lookup.
        rewrite decide_True by (apply Hin; by left). simpl.
        eexists. split; [done|]. intros a.
        rewrite eval_cons, Hev. unfold fmap. lra. }
  apply H. done.
Qed.

Lemma feature_response_scaled cascade g a :
  (sum_list ((λ '(y, x),
       (a (pixel x y) *
        cell (idiv (inject_Z (Cascade.width cascade * Cascade.height cascade)) g)
             (Z.to_nat y) (Z.to_nat x))%Q) <$> pixels cascade)
   == feature_response cascade g a)%Q.
Proof.
  unfold feature_response. apply sum_list_fmap_Qeq.
  intros [y x] _. unfold scaled_cell. rewrite cell_idiv. unfold Qdiv. lra.
Qed.

Lemma classifier_constraint_value_holds cascade epsilon m m' cl ct :
  classifier_constraint_value cascade epsilon
    (CascadeModel.make_pixel_vars cascade m).2
    (CascadeModel.make_feature_vars cascade m').2 cl = Ok ct →
  ∃ g, feature_array cascade (WeakClassifier.feature_idx cl) = Ok g ∧
       ∀ a, holds a ct ↔ classifier_inequality cascade epsilon cl g a.
Proof.
  unfold classifier_constraint_value, scaled_feature_array.
  destruct (feature_array cascade (WeakClassifier.feature_idx cl)) as [g|];
    [|done]. simpl.
  destruct (pixel_sum_eval cascade m
              (idiv (inject_Z (Cascade.width cascade * Cascade.height cascade)) g))
    as (s & -> & Hs). simpl.
  unfold dict_get. rewrite feature_vars_lookup.
  case_decide; [|done]. simpl. intros [= <-].
  exists g. split; [done|]. intros a.
  unfold classifier_inequality, holds.
  destruct (Qle_bool (WeakClassifier.fail_val cl) (WeakClassifier.pass_val cl));
    simpl; rewrite eval_app, eval_cons, eval_nil, Hs, feature_response_scaled;
    split; intros; lra.
Qed.

Lemma stage_constraint_value cascade epsilon m stage ct :
  CascadeModel.stage_constraint epsilon
    (CascadeModel.make_feature_vars cascade m).2 stage = Ok ct →
  rel ct = GE ∧
  rhs ct = (Stage.threshold stage + epsilon -
            py_sum (WeakClassifier.fail_val <$> Stage.weak_classifiers stage))%Q ∧
  ∀ b, (eval b (lhs ct) ==
        sum_list ((λ c, (WeakClassifier.pass_val c - WeakClassifier.fail_val c) *
                        b (feature (WeakClassifier.feature_idx c)))%Q
                  <$> Stage.weak_classifiers stage))%Q.
Proof.
  unfold CascadeModel.stage_constraint.
  set (fv := (CascadeModel.make_feature_vars cascade m).2).
  assert (∀ cls s,
    sum_terms (λ c,
        let! v := dict_get fv (WeakClassifier.feature_idx c) in
        Ok [((WeakClassifier.pass_val c - WeakClassifier.fail_val c)%Q, v)]) cls
      = Ok s →
    ∀ b, (eval b s ==
          sum_list ((λ c, (WeakClassifier.pass_val c - WeakClassifier.fail_val c) *
                          b (feature (WeakClassifier.feature_idx c)))%Q <$> cls))%Q)
    as H.
  { induction cls as [|c cls IH]; intros s Hs b; simpl in Hs.
    - injection Hs as <-. reflexivity.
    - unfold dict_get at 1 in Hs. subst fv. rewrite feature_vars_lookup in Hs.
      case_decide; [|done]. simpl in Hs.
      destruct (sum_terms _ cls) as [s'|]; [|done]. simpl in Hs.
      injection Hs as <-. rewrite eval_cons, fmap_cons, sum_list_cons.
      rewrite (IH s' eq_refl b). reflexivity. }
  destruct (sum_terms _ _) as [s|] eqn:Hs; [|done]. simpl.
  intros [= <-]. simpl. split; [done|]. split; [done|]. by apply H.
Qed.

Lemma indicator_score_eq b cls :
  (∀ c, c ∈ cls → is_binary b (feature (WeakClassifier.feature_idx c))) →
  (sum_list ((λ c, (WeakClassifier.pass_val c - WeakClassifier.fail_val c) *
                   b (feature (WeakClassifier.feature_idx c)))%Q <$> cls) +
   sum_list (WeakClassifier.fail_val <$> cls) ==
   sum_list (credited b <$> cls))%Q.
Proof.
  induction cls as [|c cls IH]; intros Hb.
  - unfold sum_list; simpl. lra.
  - rewrite !fmap_cons, !sum_list_cons. unfold credited at 1.
    rewrite <- IH by (intros c' Hc'; apply Hb; by right).
    destruct (Hb c) as [H0|H1]; [by left| |].
    + destruct (Qeq_bool _ 1) eqn:E.
      * apply Qeq_bool_iff in E. rewrite H0 in E. lra.
      * rewrite H0. lra.
    + rewrite (proj2 (Qeq_bool_iff _ _) H1). rewrite H1. lra.
Qed.

Lemma constraints_add_constraints m cts :
  Model.constraints (add_constraints m cts) = Model.constraints m ++ cts ∧
  Model.continuous_vars (add_constraints m cts) = Model.continuous_vars m ∧
  Model.binary_vars (add_constraints m cts) = Model.binary_vars m.
Proof.
  revert m. induction cts as [|ct cts IH]; intros m; simpl.
  - by rewrite app_nil_r.
  - destruct (IH (Model.add_constraint m ct)) as (-> & -> & ->). simpl.
    by rewrite <- app_assoc.
Qed.

(** What a built model consists of. *)
Lemma init_value_model cascade epsilon cm :
  init_value cascade epsilon = Ok cm →
  CascadeModel.cascade cm = cascade ∧
  CascadeModel.pixel_vars cm = (CascadeModel.make_pixel_vars cascade Model.new).2 ∧
  (∃ m, CascadeModel.feature_vars cm = (CascadeModel.make_feature_vars cascade m).2) ∧
  Model.continuous_vars (CascadeModel.model cm) =
    (λ '(y, x), (pixel x y, 0%Q, 1%Q)) <$> pixels cascade ∧
  Model.binary_vars (CascadeModel.model cm) =
    feature <$> range (Z.of_nat (length (Cascade.features cascade))) ∧
  ∃ ctss,
    for_collect (stage_constraints_value cascade epsilon
                   (CascadeModel.pixel_vars cm) (CascadeModel.feature_vars cm))
                (Cascade.stages cascade) = Ok ctss ∧
    Model.constraints (CascadeModel.model cm) = concat ctss.
Proof.
  unfold init_value.
  pose proof (make_pixel_vars_fold (pixels cascade) Model.new ∅) as Hp.
  unfold CascadeModel.make_pixel_vars at 1.
  destruct (foldl CascadeModel.add_pixel_var _ _) as [m1 pv] eqn:Hpv.
  pose proof (make_feature_vars_fold
                (range (Z.of_nat (length (Cascade.features cascade)))) m1 ∅) as Hf.
  unfold CascadeModel.make_feature_vars at 1.
  destruct (foldl CascadeModel.add_feature_var _ _) as [m2 fv] eqn:Hfv.
  simpl in Hp, Hf.
  destruct Hp as (Hp1 & Hp2 & Hp3 & _). destruct Hf as (Hf1 & Hf2 & Hf3 & _).
  destruct (for_collect _ _) as [ctss|] eqn:Hc; [|done]. simpl.
  intros [= <-]. simpl.
  destruct (constraints_add_constraints m2 (concat ctss)) as (-> & -> & ->).
  rewrite Hf1, Hp1, Hf2, Hp2, Hf3, Hp3. simpl.
  split_and!; try done.
  - unfold CascadeModel.make_pixel_vars. by rewrite Hpv.
  - exists m1. unfold CascadeModel.make_feature_vars. by rewrite Hfv.
  - by exists ctss.
Qed.

Lemma init_ok_value cascade epsilon s cm s' :
  CascadeModel.init cascade epsilon s = (Ok cm, s') →
  init_value cascade epsilon = Ok cm.
Proof.
  intros H. destruct (init_run cascade epsilon s) as (ext & Hrun).
  rewrite H in Hrun. by injection Hrun as <- _.
Qed.

(** C3. A built model holds, stage by stage and in order, one constraint
    for each weak classifier of the stage, then the constraint of the stage;
    the constraint of a classifier is the inequality of the specification
    over the feature grid scaled by [1 / (width * height)]: [>= 0] with the
    term [- (threshold + epsilon) * feature_var] when
    [pass_val >= fail_val], [<= threshold - epsilon] with the term
    [+ (threshold - epsilon) * feature_var] otherwise. *)
Theorem classifier_constraints_emitted cascade epsilon s cm s' :
  CascadeModel.init cascade epsilon s = (Ok cm, s') →
  ∃ ctss,
    Model.constraints (CascadeModel.model cm) = concat ctss ∧
    Forall2 (λ stage cts,
        ∃ ccs sc,
          cts = ccs ++ [sc] ∧
          Forall2 (λ cl ct,
              ∃ g, feature_array cascade (WeakClassifier.feature_idx cl) = Ok g ∧
                   ∀ a, holds a ct ↔ classifier_inequality cascade epsilon cl g a)
            (Stage.weak_classifiers stage) ccs)
      (Cascade.stages cascade) ctss.
Proof.
  intros Hinit. apply init_ok_value in Hinit.
  destruct (init_value_model _ _ _ Hinit)
    as (_ & Hpv & (m & Hfv) & _ & _ & ctss & Hc & Hcts).
  exists ctss. split; [done|].
  apply for_collect_Forall2 in Hc.
  eapply Forall2_impl; [exact Hc|]. clear Hc.
  intros stage cts Hst. unfold stage_constraints_value in Hst.
  destruct (for_collect _ (Stage.weak_classifiers stage)) as [ccs|] eqn:Hccs;
    [|done]. simpl in Hst.
  destruct (CascadeModel.stage_constraint _ _ stage) as [sc|]; [|done].
  simpl in Hst. injection Hst as <-.
  exists ccs, sc. split; [done|].
  apply for_collect_Forall2 in Hccs.
  eapply Forall2_impl; [exact Hccs|].
  intros cl ct Hct. rewrite Hpv, Hfv in Hct.
  by eapply classifier_constraint_value_holds.
Qed.

(** C4. The constraint of a stage is exact on 0/1 values of the feature
    variables: its left-hand side plus the sum of the [fail_val]s is the
    score in which a classifier counts [pass_val] when its variable is [1]
    and [fail_val] when it is [0]; with [epsilon = 0] the constraint holds
    exactly when that score reaches the stage threshold. *)
Theorem stage_constraint_exact cascade epsilon s cm s' stage :
  CascadeModel.init cascade epsilon s = (Ok cm, s') →
  stage ∈ Cascade.stages cascade →
  ∃ ct,
    CascadeModel.stage_constraint epsilon (CascadeModel.feature_vars cm) stage
      = Ok ct ∧
    ct ∈ Model.constraints (CascadeModel.model cm) ∧
    ∀ b : assignment,
      (∀ c, c ∈ Stage.weak_classifiers stage →
            is_binary b (feature (WeakClassifier.feature_idx c))) →
      (eval b (lhs ct) +
       sum_list (WeakClassifier.fail_val <$> Stage.weak_classifiers stage)
       == indicator_score b stage)%Q ∧
      ((epsilon == 0)%Q →
       (holds b ct ↔ (Stage.threshold stage <= indicator_score b stage)%Q)).
Proof.
  intros Hinit Hin. apply init_ok_value in Hinit.
  destruct (init_value_model _ _ _ Hinit)
    as (_ & Hpv & (m & Hfv) & _ & _ & ctss & Hc & Hcts).
  apply for_collect_Forall2 in Hc.
  apply list_elem_of_lookup in Hin as (i & Hi).
  destruct (Forall2_lookup_l _ _ _ _ _ Hc Hi) as (cts & Hcts_i & Hst).
  unfold stage_constraints_value in Hst.
  destruct (for_collect _ (Stage.weak_classifiers stage)) as [ccs|]; [|done].
  simpl in Hst.
  destruct (CascadeModel.stage_constraint _ _ stage) as [sc|] eqn:Hsc; [|done].
  simpl in Hst. injection Hst as <-.
  exists sc. split; [done|]. split.
  { rewrite Hcts. apply list_elem_of_In, in_concat. exists (ccs ++ [sc]).
    split; apply list_elem_of_In.
    - by eapply list_elem_of_lookup_2.
    - apply elem_of_app. right. by left. }
  rewrite Hfv in Hsc.
  destruct (stage_constraint_value _ _ _ _ _ Hsc) as (Hrel & Hrhs & Hlhs).
  intros b Hb.
  pose proof (indicator_score_eq b _ Hb) as Hscore.
  fold (indicator_score b stage) in Hscore.
  split.
  - rewrite Hlhs. exact Hscore.
  - intros Heps. unfold holds. rewrite Hrel, Hrhs, Hlhs, py_sum_sum_list.
    split; intros; lra.
Qed.

(** * The driver *)

Lemma for_collect_fmap {A B} (f : A → outcome B) (g : A → B) l :
  (∀ x, x ∈ l → f x = Ok (g x)) → for_collect f l = Ok (g <$> l).
Proof.
  induction l as [|x l IH]; intros H; [done|].
  simpl. rewrite (H x) by (by left). simpl.
  rewrite IH; [done|]. intros x' Hx'. apply H. by right.
Qed.

Lemma read_back_rows cascade m (solution_value : assignment) :
  for_collect (λ y,
    for_collect (λ x,
      let! v := dict_get (CascadeModel.make_pixel_vars cascade m).2 (x, y) in
      Ok (solution_value v))
      (range (Cascade.width cascade)))
    (range (Cascade.height cascade)) = Ok (solution_rows cascade solution_value).
Proof.
  unfold solution_rows. apply for_collect_fmap. intros y Hy.
  apply for_collect_fmap. intros x Hx.
  unfold dict_get. rewrite pixel_vars_lookup.
  rewrite decide_True; [done|].
  apply elem_of_pixels. by rewrite elem_of_range in Hy, Hx.
Qed.

Lemma lookup2_solution_rows cascade (a : assignment) x y :
  (0 ≤ x < Cascade.width cascade)%Z → (0 ≤ y < Cascade.height cascade)%Z →
  lookup2 (numpy_array (solution_rows cascade a)) (Z.to_nat y) (Z.to_nat x)
  = Some (a (pixel x y)).
Proof.
  intros Hx Hy. unfold lookup2, numpy_array, solution_rows. simpl.
  rewrite list_lookup_fmap, range_lookup.
  rewrite decide_True by lia. simpl.
  rewrite list_lookup_fmap, range_lookup.
  rewrite decide_True by lia. simpl.
  by rewrite !Z2Nat.id by lia.
Qed.

Lemma length_range n : length (range n) = Z.to_nat n.
Proof. unfold range. by rewrite length_fmap, length_seq. Qed.

Lemma shape_solution_rows cascade (a : assignment) :
  (0 < Cascade.height cascade)%Z → (0 ≤ Cascade.width cascade)%Z →
  shape (numpy_array (solution_rows cascade a))
  = (Cascade.height cascade, Cascade.width cascade).
Proof.
  intros Hh Hw. unfold shape, numpy_array, solution_rows. simpl.
  rewrite length_fmap, length_range.
  destruct (range (Cascade.height cascade)) as [|y ys] eqn:Hr.
  { apply (f_equal length) in Hr. rewrite length_range in Hr. simpl in Hr. lia. }
  simpl. rewrite length_fmap, length_range. f_equal; lia.
Qed.

Lemma feasible_pixel_bounds cascade epsilon cm (a : assignment) objective x y :
  init_value cascade epsilon = Ok cm →
  feasible a (Model.set_objective (CascadeModel.model cm) objective) →
  (0 ≤ x < Cascade.width cascade)%Z → (0 ≤ y < Cascade.height cascade)%Z →
  (0 <= a (pixel x y) <= 1)%Q.
Proof.
  intros Hinit (Hb & _ & _) Hx Hy. simpl in Hb.
  destruct (init_value_model _ _ _ Hinit) as (_ & _ & _ & Hcv & _).
  rewrite Hcv in Hb. rewrite Forall_forall in Hb.
  apply (Hb (pixel x y, 0%Q, 1%Q)).
  apply list_elem_of_fmap. exists (y, x). split; [done|].
  by apply elem_of_pixels.
Qed.

Section DriverClaims.
Variable int : string → outcome Z.
Variable float : string → outcome Q.
Variable solve : Model.t → option assignment.

(** C8, as the code has it.  On success [find_min_face] returns a new
    array whose cell [(y, x)] is the value the solver gave the pixel
    variable [(x, y)], as it is: a value in [[0, 1]] when the solver
    respects the bounds.  The array has [height] rows and [width] columns.
    The intensity scale is that of the array times [256], which the
    script computes afterwards. *)
Theorem find_min_face_reads_raw_values cascade_file s im s' :
  find_min_face int float solve cascade_file s = (Ok im, s') →
  ∃ cascade cascade_model solution_value,
    Cascade.load int float cascade_file = Ok cascade ∧
    init_value cascade 0 = Ok cascade_model ∧
    solve (Model.set_objective (CascadeModel.model cascade_model)
             (total_intensity cascade_model)) = Some solution_value ∧
    heap s !! im = None ∧
    heap s' !! im = Some (numpy_array (solution_rows cascade solution_value)) ∧
    ((0 < Cascade.height cascade)%Z → (0 ≤ Cascade.width cascade)%Z →
     shape (numpy_array (solution_rows cascade solution_value))
     = (Cascade.height cascade, Cascade.width cascade)) ∧
    ∀ x y,
      (0 ≤ x < Cascade.width cascade)%Z → (0 ≤ y < Cascade.height cascade)%Z →
      cell (numpy_array (solution_rows cascade solution_value))
           (Z.to_nat y) (Z.to_nat x) = solution_value (pixel x y) ∧
      (feasible solution_value
         (Model.set_objective (CascadeModel.model cascade_model)
            (total_intensity cascade_model)) →
       (0 <= solution_value (pixel x y) <= 1)%Q) ∧
      (cell (solution_grid cascade solution_value) (Z.to_nat y) (Z.to_nat x)
       == 256 * solution_value (pixel x y))%Q.
Proof.
  unfold find_min_face. unfold bind at 1. unfold lift at 1.
  destruct (Cascade.load int float cascade_file) as [cascade|]; [|done].
  unfold bind at 1.
  destruct (init_run cascade 0 s) as (ext & ->).
  destruct (init_value cascade 0) as [cm|] eqn:Hinit; [|done].
  destruct (solve _) as [solution_value|] eqn:Hsolve; [|done].
  destruct (init_value_model _ _ _ Hinit) as (Hc & Hpv & _).
  rewrite Hpv, read_back_rows.
  unfold bind, lift, alloc. simpl. intros [= <- <-].
  exists cascade, cm, solution_value. simpl.
  split_and!; try done.
  - apply lookup_ge_None. rewrite length_app. lia.
  - by apply list_lookup_middle.
  - apply shape_solution_rows.
  - intros x y Hx Hy. split_and!.
    + unfold cell. by rewrite lookup2_solution_rows.
    + intros Hf. by eapply feasible_pixel_bounds.
    + unfold solution_grid. rewrite cell_imul. unfold cell.
      rewrite lookup2_solution_rows by done. simpl. lra.
Qed.
End DriverClaims.

(** The value read back is the raw one: here [1/2], neither [255/2] nor
    [128]. *)
Lemma find_min_face_not_scaled :
  let r := find_min_face decimal_int decimal_float tie_solver tie_document
             (World [] []) in
  r.1 = Ok 1 ∧
  heap r.2 !! 1 = Some (NDArray 1 1 [[tie_solution (pixel 0 0)]]) ∧
  tie_solution (pixel 0 0) = (1 # 2)%Q ∧
  ¬ (cell (NDArray 1 1 [[tie_solution (pixel 0 0)]]) 0 0
     == 255 * tie_solution (pixel 0 0))%Q ∧
  ¬ (cell (NDArray 1 1 [[tie_solution (pixel 0 0)]]) 0 0
     == 256 * tie_solution (pixel 0 0))%Q.
Proof.
  split_and!; try (vm_compute; reflexivity); vm_compute; discriminate.
Qed.

(** * Soundness of the encoding *)









Section Soundness.
Variables (cascade : Cascade.t) (epsilon : Q) (a : assignment).
Hypothesis height_pos : (0 < Cascade.height cascade)%Z.
Hypothesis width_pos : (0 < Cascade.width cascade)%Z.


End Soundness.



(** * The tie at a classifier threshold *)

Lemma holdsb_sound a ct : holdsb a ct = true → holds a ct.
Proof.
  unfold holdsb, holds. destruct (rel ct); apply Qle_bool_iff.
Qed.

Lemma feasibleb_sound a m : feasibleb a m = true → feasible a m.
Proof.
  unfold feasibleb, feasible. rewrite !andb_true_iff, !forallb_forall.
  intros [[Hb Hi] Hc]. split_and!; apply Forall_forall; intros x Hx%list_elem_of_In.
  - specialize (Hb x Hx). apply andb_true_iff in Hb as [H1 H2].
    split; by apply Qle_bool_iff.
  - specialize (Hi x Hx). apply orb_true_iff in Hi as [H|H];
      apply Qeq_bool_iff in H; [by left|by right].
  - apply holdsb_sound. by apply Hc.
Qed.

(** C1 fails on the code.  In the model built (with the default
    [epsilon = 0]) for the one-pixel cascade [tie_cascade], whose classifier
    has [pass_val < fail_val], the assignment pixel [1/2], feature variable
    [0] satisfies every bound and constraint; on its grid, [[128]], the
    weighted sum equals the classifier threshold, the classifier passes and
    the detector rejects at stage 0, returning [0], not [1]. *)
Theorem soundness_fails_at_threshold_tie :
  ∃ cm s',
    CascadeModel.init tie_cascade 0 (World [] []) = (Ok cm, s') ∧
    feasible tie_solution (CascadeModel.model cm) ∧
    solution_grid tie_cascade tie_solution = NDArray 1 1 [[(1 # 2) * 256]]%Q ∧
    (Cascade.detect sample_resize tie_cascade 0
       (World [solution_grid tie_cascade tie_solution] [])).1 = Ok 0%Z.
Proof.
  eexists _, _. split; [vm_compute; reflexivity|].
  split; [apply feasibleb_sound; vm_compute; reflexivity|].
  split; vm_compute; reflexivity.
Qed.

(** The tie is the optimum: every solution of that model has the pixel at
    [1/2] or more, so a solver that minimizes the intensity returns it. *)
Lemma tie_solution_is_optimal cm s' (a : assignment) :
  CascadeModel.init tie_cascade 0 (World [] []) = (Ok cm, s') →
  feasible a (CascadeModel.model cm) →
  (tie_solution (pixel 0 0) <= a (pixel 0 0))%Q.
Proof.
  intros Hinit. vm_compute in Hinit. injection Hinit as <- _.
  intros (_ & Hbin & Hct). simpl in Hbin, Hct.
  apply Forall_inv in Hbin.
  inversion Hct as [|? ? H1 Hct']; subst.
  apply Forall_inv in Hct'.
  unfold holds, eval, sum_list in H1, Hct'. simpl in H1, Hct'.
  unfold tie_solution. destruct Hbin as [Hb|Hb]; rewrite Hb in *; lra.
Qed.

(** The script, run on that description with a solver that returns the
    optimum, fails its final assertion. *)
Lemma script_assertion_fails :
  (main decimal_int decimal_float sample_resize tie_solver tie_document
     (World [] [])).1 = Raise AssertionError.
Proof. vm_compute. reflexivity. Qed.

(** C5 fails on the code: a rejection at the first stage returns [0]. *)
Lemma bailout_at_first_stage_is_zero :
  ∃ nim stage,
    normalized_image sample_resize tie_cascade
      (solution_grid tie_cascade tie_solution) = Ok nim ∧
    Cascade.stages tie_cascade !! 0 = Some stage ∧
    stage_rejects tie_cascade nim stage ∧
    (Cascade.detect sample_resize tie_cascade 0
       (World [solution_grid tie_cascade tie_solution] [])).1 = Ok 0%Z ∧
    ¬ (0 < 0)%Z.
Proof.
  eexists _, _. split; [vm_compute; reflexivity|].
  split; [reflexivity|]. split.
  { eexists. split; vm_compute; reflexivity. }
  split; [vm_compute; reflexivity|lia].
Qed.

(** * The theorems at concrete inputs *)

Lemma detect_sequential_rejection_witness :
  heap sample_world !! 0 = Some sample_image ∧
  ∃ ext,
    Cascade.detect sample_resize sample_cascade 0 sample_world =
      (Ok (-1)%Z,
       World (heap sample_world ++ ext)
             (trace sample_world ++
              evaluations 0 (take 2 (Cascade.stages sample_cascade)) ++
              [Printed 1])).
Proof.
  split; [reflexivity|].
  destruct (detect_sequential_rejection sample_resize sample_cascade 0
              sample_image _ sample_world eq_refl eq_refl) as [H _].
  destruct (H 1 _ eq_refl) as (ext & Hd & _).
  - constructor; [|constructor].
    eexists. split; [vm_compute; reflexivity|vm_compute; discriminate].
  - eexists. split; vm_compute; reflexivity.
  - exists ext. exact Hd.
Defined.

Lemma detect_bailout_value_witness :
  ∃ i, (0 < i) ∧
    (Cascade.detect sample_resize sample_cascade 0 sample_world).1
      = Ok (- Z.of_nat i)%Z.
Proof.
  destruct (Cascade.detect sample_resize sample_cascade 0 sample_world)
    as [r s'] eqn:Hd.
  assert (r = Ok (-1)%Z) as -> by (vm_compute in Hd; congruence).
  destruct (detect_bailout_value sample_resize sample_cascade 0 sample_image _
              sample_world (-1)%Z s' eq_refl eq_refl Hd)
    as [[H _]|(i & stage & _ & _ & _ & Hr & _ & _ & Hneg)]; [lia|].
  exists i. split; [apply Hneg; lia|]. simpl. by rewrite Hr.
Defined.

Lemma detect_preserves_input_witness :
  heap sample_world !! 0 = Some sample_image ∧
  heap (Cascade.detect sample_resize sample_cascade 0 sample_world).2 !! 0
    = Some sample_image.
Proof.
  split; [reflexivity|].
  apply (proj2 (detect_preserves_input sample_resize sample_cascade 0 sample_world)).
  reflexivity.
Defined.

Lemma feature_to_array_additive_witness :
  ∃ g,
    Cascade.feature_to_array sample_cascade 0 (World [] []) =
      (Ok 0, World [g] []) ∧
    footprint (Rect.mk 0 0 2 2 1) 1 1 = true ∧
    footprint (Rect.mk 1 1 5 5 (1 # 2)) 1 1 = true ∧
    (cell g 1 1 == 1 + (1 # 2))%Q.
Proof.
  destruct (feature_to_array_additive sample_cascade 0
              [Rect.mk 0 0 2 2 1; Rect.mk 1 1 5 5 (1 # 2)] (World [] []))
    as (g & Hrun & _ & _ & Hov).
  - simpl. lia.
  - simpl. lia.
  - reflexivity.
  - repeat constructor; simpl; lia.
  - exists g. split; [exact Hrun|]. split; [reflexivity|]. split; [reflexivity|].
    apply (Hov _ _ 1 1 eq_refl); simpl; try lia; reflexivity.
Defined.

Lemma feature_to_array_clips_witness :
  ∃ g,
    Cascade.feature_to_array sample_cascade 0 (World [] []) =
      (Ok 0, World [g] []) ∧
    shape g = (2, 3)%Z ∧ array_wf g ∧
    clipped_footprint 2 3 (Rect.mk 1 1 5 5 (1 # 2)) 1 2 = true ∧
    clipped_footprint 2 3 (Rect.mk 1 1 5 5 (1 # 2)) 2 2 = false.
Proof.
  destruct (feature_to_array_clips sample_cascade 0
              [Rect.mk 0 0 2 2 1; Rect.mk 1 1 5 5 (1 # 2)] (World [] []))
    as (g & Hrun & Hshape & Hwf & _).
  - simpl. lia.
  - simpl. lia.
  - reflexivity.
  - repeat constructor; simpl; lia.
  - exists g. split; [exact Hrun|]. split; [exact Hshape|]. split; [exact Hwf|].
    split; reflexivity.
Defined.

Lemma load_rejects_unsupported_node_witness :
  ∃ e, Cascade.load decimal_int decimal_float unsupported_document = Raise e.
Proof.
  eapply (load_rejects_unsupported_node decimal_int decimal_float
            unsupported_document _ _ ["0"; "1"; "0"; "0.5"]%string).
  - vm_compute. left.
  - vm_compute. left.
  - vm_compute. reflexivity.
  - right. simpl. discriminate.
Defined.

Lemma classifier_constraints_emitted_witness :
  ∃ cm s',
    CascadeModel.init tie_cascade 0 (World [] []) = (Ok cm, s') ∧
    ∃ ctss, Model.constraints (CascadeModel.model cm) = concat ctss ∧
            length ctss = 1.
Proof.
  eexists _, _. split; [vm_compute; reflexivity|].
  edestruct (classifier_constraints_emitted tie_cascade 0 (World [] []))
    as (ctss & Hc & Hall).
  { vm_compute. reflexivity. }
  exists ctss. split; [exact Hc|].
  apply Forall2_length in Hall. simpl in Hall. congruence.
Defined.

Lemma stage_constraint_exact_witness :
  ∃ cm s' ct,
    CascadeModel.init tie_cascade 0 (World [] []) = (Ok cm, s') ∧
    ct ∈ Model.constraints (CascadeModel.model cm) ∧
    (holds tie_solution ct ↔
     (0 <= indicator_score tie_solution
             (Stage.mk 0 [WeakClassifier.mk 0 (- (1 # 2)) 1 (-1)]))%Q).
Proof.
  destruct (CascadeModel.init tie_cascade 0 (World [] [])) as [r s'] eqn:Hinit.
  assert (∃ cm, r = Ok cm) as [cm ->].
  { vm_compute in Hinit. injection Hinit as <- _. eexists. reflexivity. }
  destruct (stage_constraint_exact tie_cascade 0 (World [] []) cm s'
              (Stage.mk 0 [WeakClassifier.mk 0 (- (1 # 2)) 1 (-1)]) Hinit)
    as (ct & _ & Hin & Hex).
  { left. }
  exists cm, s', ct. split; [reflexivity|]. split; [exact Hin|].
  apply Hex; [|reflexivity].
  intros c _. left. reflexivity.
Defined.

Lemma find_min_face_reads_raw_values_witness :
  ∃ cascade solution_value,
    Cascade.load decimal_int decimal_float tie_document = Ok cascade ∧
    heap (find_min_face decimal_int decimal_float tie_solver tie_document
            (World [] [])).2 !! 1
      = Some (numpy_array (solution_rows cascade solution_value)) ∧
    cell (numpy_array (solution_rows cascade solution_value)) 0 0
      = solution_value (pixel 0 0).
Proof.
  destruct (find_min_face decimal_int decimal_float tie_solver tie_document
              (World [] [])) as [r s'] eqn:Hrun.
  assert (r = Ok 1) as -> by (vm_compute in Hrun; congruence).
  destruct (find_min_face_reads_raw_values _ _ _ _ _ _ _ Hrun)
    as (cascade & cm & sol & Hload & _ & _ & _ & Hheap & _ & Hcell).
  exists cascade, sol. split; [exact Hload|]. split; [exact Hheap|].
  pose proof Hload as Hc. vm_compute in Hc. injection Hc as Hc.
  apply (Hcell 0%Z 0%Z); rewrite <- Hc; simpl; lia.
Defined.

(** * Further properties of feature expansion *)

Lemma weight_sum_app region f1 f2 i j :
  (weight_sum region (f1 ++ f2) i j ==
   weight_sum region f1 i j + weight_sum region f2 i j)%Q.
Proof. unfold weight_sum. rewrite fmap_app. apply sum_list_app. Qed.

(** Every cell of the expanded feature, for rectangles of any sign. *)
Lemma feature_grid_cell_region h w f i j :
  (cell (feature_grid h w f) i j ==
   if decide ((i < h)%nat ∧ (j < w)%nat)
   then weight_sum (slice_region h w) f i j else 0)%Q.
Proof.
  unfold cell, feature_grid.
  pose proof (lookup2_zeros h w i j) as Hz. case_decide as Hd.
  - destruct (lookup2_foldl_add_rect f _ _ _ _ Hz) as (v' & -> & Hv').
    simpl. rewrite Hv'. simpl. lra.
  - rewrite (lookup2_foldl_add_rect_None f _ _ _ Hz). reflexivity.
Qed.

Lemma in_slice_straddles len_ start extent k :
  straddles (Z.of_nat len_) start extent →
  in_slice start (start + extent) len_ k = false.
Proof.
  intros (Hs & He & Hl). unfold in_slice, slice_bound.
  destruct (Z.ltb_spec start 0); [|lia].
  destruct (Z.ltb_spec (start + extent) 0); [lia|].
  bool_lia.
Qed.

Lemma in_slice_lies_before len_ start extent k :
  lies_before (Z.of_nat len_) start extent →
  in_slice start (start + extent) len_ k =
  in_slice (start + Z.of_nat len_) (start + Z.of_nat len_ + extent) len_ k.
Proof.
  intros (Hs & He & Hl). unfold in_slice, slice_bound.
  destruct (Z.ltb_spec start 0); [|lia].
  destruct (Z.ltb_spec (start + extent) 0); [|lia].
  destruct (Z.ltb_spec (start + Z.of_nat len_) 0); [lia|].
  destruct (Z.ltb_spec (start + Z.of_nat len_ + extent) 0); [lia|].
  bool_lia.
Qed.

Lemma feature_to_array_ok self feature_idx f s :
  (0 ≤ Cascade.height self)%Z → (0 ≤ Cascade.width self)%Z →
  getitem (Cascade.features self) feature_idx = Ok f →
  Cascade.feature_to_array self feature_idx s =
    (Ok (length (heap s)),
     World (heap s ++ [feature_grid (Z.to_nat (Cascade.height self))
                         (Z.to_nat (Cascade.width self)) f]) (trace s)).
Proof.
  intros Hh Hw Hf.
  destruct (feature_to_array_run self feature_idx s) as (ext & Hrun & Hext).
  rewrite (feature_array_ok _ _ _ Hh Hw Hf) in Hrun, Hext.
  by rewrite (Hext _ eq_refl) in Hrun.
Qed.

(** X2. A rectangle that starts left of (or above) the window and ends inside
    it is dropped whole, not cut to the window: the array is the one of the
    feature without that rectangle. *)
Theorem feature_to_array_drops_straddling self self' idx idx' f1 r f2 s s' :
  (0 ≤ Cascade.height self)%Z → (0 ≤ Cascade.width self)%Z →
  Cascade.height self' = Cascade.height self →
  Cascade.width self' = Cascade.width self →
  getitem (Cascade.features self) idx = Ok (f1 ++ r :: f2) →
  getitem (Cascade.features self') idx' = Ok (f1 ++ f2) →
  straddles (Cascade.width self) (Rect.x r) (Rect.w r) ∨
  straddles (Cascade.height self) (Rect.y r) (Rect.h r) →
  ∃ g g',
    Cascade.feature_to_array self idx s =
      (Ok (length (heap s)), World (heap s ++ [g]) (trace s)) ∧
    Cascade.feature_to_array self' idx' s' =
      (Ok (length (heap s')), World (heap s' ++ [g']) (trace s')) ∧
    ∀ i j, (cell g i j == cell g' i j)%Q.
Proof.
  intros Hh Hw Hh' Hw' Hf Hf' Hr.
  rewrite (feature_to_array_ok self idx _ s Hh Hw Hf).
  rewrite (feature_to_array_ok self' idx' _ s') by (done || lia).
  eexists _, _. split; [done|]. split; [done|].
  intros i j. rewrite Hh', Hw', !feature_grid_cell_region.
  case_decide; [|reflexivity].
  rewrite !weight_sum_app, weight_sum_cons.
  assert (slice_region (Z.to_nat (Cascade.height self))
            (Z.to_nat (Cascade.width self)) r i j = false) as ->; [|lra].
  unfold slice_region. destruct Hr as [Hx|Hy].
  - rewrite (in_slice_straddles _ (Rect.x r)) by (by rewrite Z2Nat.id).
    apply andb_false_r.
  - by rewrite (in_slice_straddles _ (Rect.y r)) by (by rewrite Z2Nat.id).
Qed.

(** X3. A rectangle that lies left of the window, at most one window width
    away, is not ignored: it is added [width] columns to the right, the
    way Python reads negative slice bounds. *)
Theorem feature_to_array_wraps_negative self self' idx idx' f1 r f2 s s' :
  (0 ≤ Cascade.height self)%Z → (0 ≤ Cascade.width self)%Z →
  Cascade.height self' = Cascade.height self →
  Cascade.width self' = Cascade.width self →
  getitem (Cascade.features self) idx = Ok (f1 ++ r :: f2) →
  getitem (Cascade.features self') idx'
    = Ok (f1 ++ shift_right (Cascade.width self) r :: f2) →
  lies_before (Cascade.width self) (Rect.x r) (Rect.w r) →
  ∃ g g',
    Cascade.feature_to_array self idx s =
      (Ok (length (heap s)), World (heap s ++ [g]) (trace s)) ∧
    Cascade.feature_to_array self' idx' s' =
      (Ok (length (heap s')), World (heap s' ++ [g']) (trace s')) ∧
    ∀ i j, (cell g i j == cell g' i j)%Q.
Proof.
  intros Hh Hw Hh' Hw' Hf Hf' Hr.
  rewrite (feature_to_array_ok self idx _ s Hh Hw Hf).
  rewrite (feature_to_array_ok self' idx' _ s') by (done || lia).
  eexists _, _. split; [done|]. split; [done|].
  intros i j. rewrite Hh', Hw', !feature_grid_cell_region.
  case_decide; [|reflexivity].
  rewrite !weight_sum_app, !weight_sum_cons.
  assert (slice_region (Z.to_nat (Cascade.height self))
            (Z.to_nat (Cascade.width self))
            (shift_right (Cascade.width self) r) i j =
          slice_region (Z.to_nat (Cascade.height self))
            (Z.to_nat (Cascade.width self)) r i j) as ->; [|reflexivity].
  unfold slice_region, shift_right. simpl.
  rewrite (in_slice_lies_before _ (Rect.x r)) by (by rewrite Z2Nat.id).
  by rewrite Z2Nat.id.
Qed.

(** X4. The feature index is a Python list index: a negative [feature_idx]
    counts from the end, and an index outside [[-n, n)] raises [IndexError]
    after the zero array was made; a negative size raises [ValueError]
    first. *)
Theorem feature_to_array_index self feature_idx s :
  let n := Z.of_nat (length (Cascade.features self)) in
  ((Cascade.height self < 0 ∨ Cascade.width self < 0)%Z →
   Cascade.feature_to_array self feature_idx s = (Raise ValueError, s)) ∧
  ((0 ≤ Cascade.height self)%Z → (0 ≤ Cascade.width self)%Z →
   (feature_idx < - n ∨ n ≤ feature_idx)%Z →
   Cascade.feature_to_array self feature_idx s =
     (Raise IndexError,
      World (heap s ++ [zeros (Z.to_nat (Cascade.height self))
                              (Z.to_nat (Cascade.width self))]) (trace s))) ∧
  ((- n ≤ feature_idx < 0)%Z →
   Cascade.feature_to_array self feature_idx s =
   Cascade.feature_to_array self (feature_idx + n) s).
Proof.
  intros n. split_and!.
  - intros Hneg. unfold Cascade.feature_to_array, numpy_zeros, bind.
    assert ((Cascade.height self <? 0)%Z || (Cascade.width self <? 0)%Z = true) as ->.
    { apply orb_true_iff. rewrite !Z.ltb_lt. done. }
    unfold raise. done.
  - intros Hh Hw Hidx. unfold Cascade.feature_to_array, numpy_zeros, bind.
    assert ((Cascade.height self <? 0)%Z || (Cascade.width self <? 0)%Z = false) as ->.
    { apply orb_false_iff. rewrite !Z.ltb_ge. done. }
    unfold alloc, lift. simpl.
    assert (getitem (Cascade.features self) feature_idx = Raise IndexError) as ->;
      [|done].
    unfold getitem. fold n.
    destruct (Z.ltb_spec feature_idx 0).
    + destruct (Z.ltb_spec (feature_idx + n) 0); [done|]. lia.
    + destruct (Z.ltb_spec feature_idx 0); [lia|].
      rewrite (proj2 (lookup_ge_None _ _)); [done|]. lia.
  - intros Hidx. unfold Cascade.feature_to_array.
    assert (getitem (Cascade.features self) feature_idx =
            getitem (Cascade.features self) (feature_idx + n)) as ->; [|done].
    unfold getitem. fold n.
    destruct (Z.ltb_spec feature_idx 0); [|lia].
    destruct (Z.ltb_spec (feature_idx + n) 0); [lia|].
    destruct (Z.ltb_spec (feature_idx + n) 0); [lia|]. done.
Qed.

Lemma feature_to_array_drops_straddling_witness :
  ∃ g g',
    (Cascade.feature_to_array edge_cascade 0 (World [] [])).2 = World [g] [] ∧
    (Cascade.feature_to_array edge_cascade 1 (World [] [])).2 = World [g'] [] ∧
    straddles 3 (-1) 2 ∧
    (cell g 0 0 == cell g' 0 0)%Q.
Proof.
  destruct (feature_to_array_drops_straddling edge_cascade edge_cascade 0 1
              [] (Rect.mk (-1) 0 2 1 5) [Rect.mk 0 0 1 1 1] (World [] []) (World [] []))
    as (g & g' & H1 & H2 & Hc).
  - simpl. lia.
  - simpl. lia.
  - reflexivity.
  - reflexivity.
  - reflexivity.
  - reflexivity.
  - left. unfold straddles. simpl. lia.
  - exists g, g'. rewrite H1, H2. split; [reflexivity|]. split; [reflexivity|].
    split; [unfold straddles; lia|apply Hc].
Defined.

Lemma feature_to_array_wraps_negative_witness :
  ∃ g g',
    (Cascade.feature_to_array edge_cascade 2 (World [] [])).2 = World [g] [] ∧
    (Cascade.feature_to_array edge_cascade 3 (World [] [])).2 = World [g'] [] ∧
    lies_before 3 (-2) 1 ∧
    (cell g 0 1 == cell g' 0 1)%Q.
Proof.
  destruct (feature_to_array_wraps_negative edge_cascade edge_cascade 2 3
              [] (Rect.mk (-2) 0 1 1 7) [] (World [] []) (World [] []))
    as (g & g' & H1 & H2 & Hc).
  - simpl. lia.
  - simpl. lia.
  - reflexivity.
  - reflexivity.
  - reflexivity.
  - reflexivity.
  - unfold lies_before. simpl. lia.
  - exists g, g'. rewrite H1, H2. split; [reflexivity|]. split; [reflexivity|].
    split; [unfold lies_before; lia|apply Hc].
Defined.

Lemma feature_to_array_index_witness :
  Cascade.feature_to_array edge_cascade (-1) (World [] []) =
  Cascade.feature_to_array edge_cascade 3 (World [] []) ∧
  (Cascade.feature_to_array edge_cascade 4 (World [] [])).1 = Raise IndexError.
Proof.
  destruct (feature_to_array_index edge_cascade (-1) (World [] [])) as (_ & _ & Hneg).
  destruct (feature_to_array_index edge_cascade 4 (World [] [])) as (_ & Hout & _).
  split.
  - apply Hneg. simpl. lia.
  - rewrite Hout; [reflexivity| | |]; simpl; lia.
Defined.

(** * Further properties of the detector *)

Lemma stage_run_raise self nim stages : ∀ k i stage e,
  stages !! i = Some stage →
  Forall (stage_passes self nim) (take i stages) →
  stage_score self nim stage = Raise e →
  (stage_run self nim k stages).1 = Raise e.
Proof.
  induction stages as [|st stages IH]; intros k i stage e Hi Hall Hraise; [done|].
  destruct i as [|i]; simpl in *.
  - injection Hi as ->. unfold stage_score in Hraise.
    pose proof (classifier_run_score self nim k (Stage.weak_classifiers stage) 0%Q) as H.
    destruct (for_collect _ _) as [vs|e']; [done|]. simpl in Hraise.
    injection Hraise as ->. destruct H as (ev & ->). done.
  - inversion Hall as [|? ? Hp Hrest]; subst.
    destruct (classifier_run_passes self nim k st Hp) as (t & -> & ->).
    specialize (IH (k + 1)%Z i stage e Hi Hrest Hraise).
    destruct (stage_run self nim (k + 1)%Z stages) as [r ev]. done.
Qed.

Section DetectFurther.
Variable cv2_resize : ndarray → Z * Z → interpolation → outcome ndarray.

(** X5. An image that already has the cascade's shape is never resized:
    [detect] does the same whatever [cv2.resize] would do. *)
Theorem detect_skips_resize
    (other_resize : ndarray → Z * Z → interpolation → outcome ndarray)
    self im a s :
  heap s !! im = Some a →
  shape a = (Cascade.height self, Cascade.width self) →
  Cascade.detect cv2_resize self im s = Cascade.detect other_resize self im s.
Proof.
  intros Him Hshape.
  assert (∀ cv, Cascade.detect cv self im s =
            (im' <- alloc a ;;
             _ <- modify im'
                    (idiv (256 * inject_Z (Cascade.height self *
                                           Cascade.width self))) ;;
             Cascade.stage_loop self im' 0%Z (Cascade.stages self)) s) as H.
  { intros cv. unfold Cascade.detect.
    unfold bind at 1. unfold deref at 1. rewrite Him.
    unfold bind at 1.
    rewrite decide_False by (intros Hne; by apply Hne).
    unfold ret at 1.
    unfold bind at 1. unfold deref at 1. rewrite Him. done. }
  by rewrite !H.
Qed.

(** X6. When the shape differs and [cv2.resize] raises, [detect] raises
    the same error at once: no array is made, no classifier is tested and
    nothing is printed. *)
Theorem detect_resize_error self im a s e :
  heap s !! im = Some a →
  shape a ≠ (Cascade.height self, Cascade.width self) →
  cv2_resize a (Cascade.width self, Cascade.height self) INTER_AREA = Raise e →
  Cascade.detect cv2_resize self im s = (Raise e, s).
Proof.
  intros Him Hshape Hres. unfold Cascade.detect.
  unfold bind at 1. unfold deref at 1. rewrite Him.
  unfold bind at 1. rewrite decide_True by done.
  unfold bind at 1. unfold lift. by rewrite Hres.
Qed.

(** X7. When the shape differs, [detect] answers for the resized image:
    its result and the tests it runs are those of a call on the array
    [cv2.resize] returns. *)
Theorem detect_on_resized self im a r s im' s' :
  heap s !! im = Some a →
  shape a ≠ (Cascade.height self, Cascade.width self) →
  cv2_resize a (Cascade.width self, Cascade.height self) INTER_AREA = Ok r →
  shape r = (Cascade.height self, Cascade.width self) →
  heap s' !! im' = Some r →
  ∃ ext ext' ev,
    Cascade.detect cv2_resize self im s =
      ((Cascade.detect cv2_resize self im' s').1,
       World (heap s ++ ext) (trace s ++ ev)) ∧
    (Cascade.detect cv2_resize self im' s').2 =
      World (heap s' ++ ext') (trace s' ++ ev).
Proof.
  intros Him Hshape Hres Hr Him'.
  destruct (detect_run_spec cv2_resize self im a s Him) as (ext & ->).
  destruct (detect_run_spec cv2_resize self im' r s' Him') as (ext' & ->).
  assert (detect_run cv2_resize self a = detect_run cv2_resize self r) as ->.
  { unfold detect_run, normalized_image.
    rewrite decide_True by done. rewrite Hres.
    rewrite decide_False by (intros Hne; by apply Hne). done. }
  by exists ext, ext', (detect_run cv2_resize self r).2.
Qed.

(** X8. An error in a weak classifier (a feature index outside the list,
    a negative window size) is raised by [detect] when every earlier stage
    passes; it is the first error of the first stage that has one. *)
Theorem detect_raises_first_error self im a nim s i stage e :
  heap s !! im = Some a →
  normalized_image cv2_resize self a = Ok nim →
  Cascade.stages self !! i = Some stage →
  Forall (stage_passes self nim) (take i (Cascade.stages self)) →
  stage_score self nim stage = Raise e →
  (Cascade.detect cv2_resize self im s).1 = Raise e.
Proof.
  intros Him Hnim Hi Hall Hraise.
  destruct (detect_run_spec cv2_resize self im a s Him) as (ext & ->).
  unfold detect_run. rewrite Hnim. simpl.
  by eapply stage_run_raise.
Qed.
End DetectFurther.

(** * Further properties of the model builder *)

(** ** What a built model says about the cascade *)

Lemma classifier_constraint_value_valid cascade epsilon pv m cl ct :
  classifier_constraint_value cascade epsilon pv
    (CascadeModel.make_feature_vars cascade m).2 cl = Ok ct →
  (0 ≤ Cascade.height cascade)%Z ∧ (0 ≤ Cascade.width cascade)%Z ∧
  (0 ≤ WeakClassifier.feature_idx cl
     < Z.of_nat (length (Cascade.features cascade)))%Z.
Proof.
  unfold classifier_constraint_value, scaled_feature_array, feature_array.
  destruct (Z.ltb_spec (Cascade.height cascade) 0); [done|].
  destruct (Z.ltb_spec (Cascade.width cascade) 0); [done|]. simpl.
  destruct (getitem _ _); [|done]. simpl.
  destruct (CascadeModel.pixel_sum _ _ _); [|done]. simpl.
  unfold dict_get. rewrite feature_vars_lookup. case_decide; done.
Qed.

Lemma init_value_classifier cascade epsilon cm stage cl :
  init_value cascade epsilon = Ok cm →
  stage ∈ Cascade.stages cascade →
  cl ∈ Stage.weak_classifiers stage →
  ∃ ct, classifier_constraint_value cascade epsilon
          (CascadeModel.pixel_vars cm) (CascadeModel.feature_vars cm) cl = Ok ct ∧
        ct ∈ Model.constraints (CascadeModel.model cm).
Proof.
  intros Hinit Hst Hcl.
  destruct (init_value_model _ _ _ Hinit)
    as (_ & _ & _ & _ & _ & ctss & Hc & Hcts).
  apply for_collect_Forall2 in Hc.
  apply list_elem_of_lookup in Hst as (i & Hi).
  destruct (Forall2_lookup_l _ _ _ _ _ Hc Hi) as (cts & Hcts_i & Hscv).
  unfold stage_constraints_value in Hscv.
  destruct (for_collect _ (Stage.weak_classifiers stage)) as [ccs|] eqn:Hccs;
    [|done]. simpl in Hscv.
  destruct (CascadeModel.stage_constraint _ _ stage) as [sc|]; [|done].
  simpl in Hscv. injection Hscv as <-.
  apply for_collect_Forall2 in Hccs.
  apply list_elem_of_lookup in Hcl as (j & Hj).
  destruct (Forall2_lookup_l _ _ _ _ _ Hccs Hj) as (ct & Hct_j & Hct).
  exists ct. split; [done|].
  rewrite Hcts. apply list_elem_of_In, in_concat. exists (ccs ++ [sc]).
  split; apply list_elem_of_In.
  - by eapply list_elem_of_lookup_2.
  - apply elem_of_app. left. by eapply list_elem_of_lookup_2.
Qed.

(** X9. A model is built only for a cascade all of whose weak classifiers
    name a feature by an index in [[0, len(features))]: an index that
    [feature_to_array] would accept counting from the end (a negative one)
    has no feature variable and makes the constructor raise. *)
Theorem init_requires_valid_indices cascade epsilon s cm s' stage cl :
  CascadeModel.init cascade epsilon s = (Ok cm, s') →
  stage ∈ Cascade.stages cascade →
  cl ∈ Stage.weak_classifiers stage →
  (0 ≤ WeakClassifier.feature_idx cl
     < Z.of_nat (length (Cascade.features cascade)))%Z ∧
  (0 ≤ Cascade.height cascade)%Z ∧ (0 ≤ Cascade.width cascade)%Z.
Proof.
  intros Hinit Hst Hcl. apply init_ok_value in Hinit.
  destruct (init_value_classifier _ _ _ _ _ Hinit Hst Hcl) as (ct & Hct & _).
  destruct (init_value_model _ _ _ Hinit) as (_ & _ & (m & Hfv) & _).
  rewrite Hfv in Hct.
  by destruct (classifier_constraint_value_valid _ _ _ _ _ _ Hct) as (? & ? & ?).
Qed.

(** X10. The variables of a built model: one continuous variable with
    bounds [[0, 1]] for each pixel of the window, row by row, one binary
    variable for each feature, no objective; [pixel_vars[x, y]] and
    [feature_vars[idx]] are defined for exactly these keys. *)
Theorem init_variables cascade epsilon s cm s' :
  CascadeModel.init cascade epsilon s = (Ok cm, s') →
  Model.continuous_vars (CascadeModel.model cm) =
    (λ '(y, x), (pixel x y, 0%Q, 1%Q)) <$> pixels cascade ∧
  Model.binary_vars (CascadeModel.model cm) =
    feature <$> range (Z.of_nat (length (Cascade.features cascade))) ∧
  (∀ x y, CascadeModel.pixel_vars cm !! (x, y) =
          if decide (0 ≤ x < Cascade.width cascade ∧
                     0 ≤ y < Cascade.height cascade)%Z
          then Some (pixel x y) else None) ∧
  (∀ idx, CascadeModel.feature_vars cm !! idx =
          if decide (0 ≤ idx < Z.of_nat (length (Cascade.features cascade)))%Z
          then Some (feature idx) else None).
Proof.
  intros Hinit. apply init_ok_value in Hinit.
  destruct (init_value_model _ _ _ Hinit)
    as (_ & Hpv & (m & Hfv) & Hcv & Hbv & _).
  split_and!; try done.
  - intros x y. rewrite Hpv, pixel_vars_lookup.
    case_decide as Hin; rewrite elem_of_pixels in Hin.
    + rewrite decide_True; [done|lia].
    + rewrite decide_False; [done|lia].
  - intros idx. by rewrite Hfv, feature_vars_lookup.
Qed.

(** ** The margin only tightens the model *)

Lemma for_collect_rel {A B} (f f' : A → outcome B) (R : B → B → Prop) l : ∀ ys',
  (∀ x y', x ∈ l → f' x = Ok y' → ∃ y, f x = Ok y ∧ R y' y) →
  for_collect f' l = Ok ys' →
  ∃ ys, for_collect f l = Ok ys ∧ Forall2 R ys' ys.
Proof.
  induction l as [|x l IH]; intros ys' Hf H; simpl in H.
  - injection H as <-. exists []. split; [done|constructor].
  - destruct (f' x) as [y'|] eqn:Hx; [|done]. simpl in H.
    destruct (for_collect f' l) as [ys''|]; [|done]. simpl in H.
    injection H as <-.
    destruct (Hf x y') as (y & Hy & HR); [by left|done|].
    destruct (IH ys'') as (ys & Hys & HRs); [|done|].
    { intros x0 y0 Hin. apply Hf. by right. }
    exists (y :: ys). simpl. rewrite Hy, Hys. split; [done|by constructor].
Qed.

Lemma Forall2_concat_rel {A} (R : A → A → Prop) ls ls' :
  Forall2 (Forall2 R) ls ls' → Forall2 R (concat ls) (concat ls').
Proof.
  induction 1 as [|l l' ls ls' Hl Hls IH]; simpl; [constructor|].
  by apply Forall2_app.
Qed.

Lemma Forall_transfer {A} (R : A → A → Prop) (P : A → Prop) l l' :
  Forall2 R l l' → (∀ x y, R x y → P x → P y) → Forall P l → Forall P l'.
Proof.
  induction 1 as [|x y l l' Hxy Hl IH]; intros HR HP; [constructor|].
  inversion HP; subst. constructor; [by eapply HR|by apply IH].
Qed.

(** Whether a constraint can be built does not depend on the margin. *)
Lemma stage_constraints_value_any_margin cascade epsilon epsilon' pv fv stage cts' :
  stage_constraints_value cascade epsilon' pv fv stage = Ok cts' →
  ∃ cts, stage_constraints_value cascade epsilon pv fv stage = Ok cts.
Proof.
  unfold stage_constraints_value.
  destruct (for_collect _ (Stage.weak_classifiers stage)) as [ccs'|] eqn:Hccs';
    [|done]. simpl.
  destruct (CascadeModel.stage_constraint epsilon' _ stage) as [sc'|] eqn:Hsc';
    [|done]. simpl. intros _.
  destruct (for_collect_rel
              (classifier_constraint_value cascade epsilon pv fv)
              (classifier_constraint_value cascade epsilon' pv fv)
              (λ _ _, True) (Stage.weak_classifiers stage) ccs')
    as (ccs & -> & _); [|done|].
  { intros cl ct' _. unfold classifier_constraint_value.
    destruct (scaled_feature_array _ _); [|done]. simpl.
    destruct (CascadeModel.pixel_sum _ _ _); [|done]. simpl.
    destruct (dict_get _ _); [|done]. simpl. by eexists. }
  revert Hsc'. unfold CascadeModel.stage_constraint.
  destruct (sum_terms _ _); [|done]. simpl. by eexists.
Qed.

Section Tighten.
Variables (cascade : Cascade.t) (epsilon epsilon' : Q) (a : assignment).
Hypothesis margin_le : (epsilon <= epsilon')%Q.
Hypothesis binary : ∀ idx,
  (0 ≤ idx < Z.of_nat (length (Cascade.features cascade)))%Z →
  is_binary a (feature idx).

Lemma classifier_constraint_tightens m m' cl ct' :
  classifier_constraint_value cascade epsilon'
    (CascadeModel.make_pixel_vars cascade m).2
    (CascadeModel.make_feature_vars cascade m').2 cl = Ok ct' →
  ∃ ct, classifier_constraint_value cascade epsilon
          (CascadeModel.make_pixel_vars cascade m).2
          (CascadeModel.make_feature_vars cascade m').2 cl = Ok ct ∧
        (holds a ct' → holds a ct).
Proof using margin_le binary.
  intros Hct'.
  destruct (classifier_constraint_value_valid _ _ _ _ _ _ Hct') as (_ & _ & Hidx).
  assert (∃ ct, classifier_constraint_value cascade epsilon
                  (CascadeModel.make_pixel_vars cascade m).2
                  (CascadeModel.make_feature_vars cascade m').2 cl = Ok ct)
    as (ct & Hct).
  { revert Hct'. unfold classifier_constraint_value.
    destruct (scaled_feature_array _ _); [|done]. simpl.
    destruct (CascadeModel.pixel_sum _ _ _); [|done]. simpl.
    destruct (dict_get _ _); [|done]. simpl. by eexists. }
  exists ct. split; [done|].
  destruct (classifier_constraint_value_holds _ _ _ _ _ _ Hct') as (g' & Hg' & ->).
  destruct (classifier_constraint_value_holds _ _ _ _ _ _ Hct) as (g & Hg & ->).
  rewrite Hg in Hg'. injection Hg' as <-.
  unfold classifier_inequality.
  destruct (binary _ Hidx) as [Hb|Hb];
    destruct (Qle_bool _ _); rewrite Hb; intros; lra.
Qed.

Lemma stage_constraint_tightens m stage sc' :
  CascadeModel.stage_constraint epsilon'
    (CascadeModel.make_feature_vars cascade m).2 stage = Ok sc' →
  ∃ sc, CascadeModel.stage_constraint epsilon
          (CascadeModel.make_feature_vars cascade m).2 stage = Ok sc ∧
        (holds a sc' → holds a sc).
Proof using margin_le.
  intros Hsc'.
  assert (∃ sc, CascadeModel.stage_constraint epsilon
                  (CascadeModel.make_feature_vars cascade m).2 stage = Ok sc)
    as (sc & Hsc).
  { revert Hsc'. unfold CascadeModel.stage_constraint.
    destruct (sum_terms _ _); [|done]. simpl. by eexists. }
  exists sc. split; [done|].
  destruct (stage_constraint_value _ _ _ _ _ Hsc') as (Hrel' & Hrhs' & Hlhs').
  destruct (stage_constraint_value _ _ _ _ _ Hsc) as (Hrel & Hrhs & Hlhs).
  unfold holds. rewrite Hrel, Hrel', Hrhs, Hrhs', Hlhs, Hlhs'. lra.
Qed.

Lemma stage_constraints_tighten m m' stage cts' :
  stage_constraints_value cascade epsilon'
    (CascadeModel.make_pixel_vars cascade m).2
    (CascadeModel.make_feature_vars cascade m').2 stage = Ok cts' →
  ∃ cts, stage_constraints_value cascade epsilon
           (CascadeModel.make_pixel_vars cascade m).2
           (CascadeModel.make_feature_vars cascade m').2 stage = Ok cts ∧
         Forall2 (λ ct' ct, holds a ct' → holds a ct) cts' cts.
Proof using margin_le binary.
  unfold stage_constraints_value.
  destruct (for_collect _ (Stage.weak_classifiers stage)) as [ccs'|] eqn:Hccs';
    [|done]. simpl.
  destruct (CascadeModel.stage_constraint epsilon' _ stage) as [sc'|] eqn:Hsc';
    [|done]. simpl. intros [= <-].
  destruct (for_collect_rel
              (classifier_constraint_value cascade epsilon
                 (CascadeModel.make_pixel_vars cascade m).2
                 (CascadeModel.make_feature_vars cascade m').2)
              _ (λ ct' ct, holds a ct' → holds a ct) _ _
              (λ cl ct' _ H, classifier_constraint_tightens m m' cl ct' H) Hccs')
    as (ccs & -> & Hrel).
  destruct (stage_constraint_tightens _ _ _ Hsc') as (sc & -> & Hsc).
  simpl. eexists. split; [done|].
  apply Forall2_app; [done|]. by constructor.
Qed.
End Tighten.

Lemma feasible_binary cascade epsilon cm (a : assignment) :
  init_value cascade epsilon = Ok cm →
  Forall (is_binary a) (Model.binary_vars (CascadeModel.model cm)) →
  ∀ idx, (0 ≤ idx < Z.of_nat (length (Cascade.features cascade)))%Z →
         is_binary a (feature idx).
Proof.
  intros Hinit Hbin idx Hidx.
  destruct (init_value_model _ _ _ Hinit) as (_ & _ & _ & _ & Hbv & _).
  rewrite Hbv, Forall_forall in Hbin. apply Hbin.
  apply list_elem_of_fmap. exists idx. split; [done|]. by apply elem_of_range.
Qed.

(** X11. The margin only tightens the model: when the model can be built
    with [epsilon'], it can be built with any smaller [epsilon], over the
    same variables, and every solution of the former is a solution of the
    latter. *)
Theorem model_tightens_with_epsilon cascade epsilon epsilon' s cm' s1' s0 :
  (epsilon <= epsilon')%Q →
  CascadeModel.init cascade epsilon' s = (Ok cm', s1') →
  ∃ cm s1,
    CascadeModel.init cascade epsilon s0 = (Ok cm, s1) ∧
    Model.continuous_vars (CascadeModel.model cm) =
      Model.continuous_vars (CascadeModel.model cm') ∧
    Model.binary_vars (CascadeModel.model cm) =
      Model.binary_vars (CascadeModel.model cm') ∧
    ∀ a, feasible a (CascadeModel.model cm') → feasible a (CascadeModel.model cm).
Proof.
  intros Hle Hinit'. apply init_ok_value in Hinit'.
  destruct (init_value_model _ _ _ Hinit')
    as (_ & Hpv' & (m' & Hfv') & Hcv' & Hbv' & ctss' & Hc' & Hcts').
  assert (∃ cm, init_value cascade epsilon = Ok cm) as (cm & Hinit).
  { revert Hinit' Hc'. unfold init_value.
    destruct (CascadeModel.make_pixel_vars cascade Model.new) as [m1 pv] eqn:Hpv.
    destruct (CascadeModel.make_feature_vars cascade m1) as [m2 fv] eqn:Hfv.
    destruct (for_collect (stage_constraints_value cascade epsilon' pv fv) _)
      as [ctss0|] eqn:Hc0; [|done]. simpl. intros [= <-] _. simpl in *.
    destruct (for_collect_rel
                (stage_constraints_value cascade epsilon pv fv)
                (stage_constraints_value cascade epsilon' pv fv)
                (λ _ _, True) (Cascade.stages cascade) ctss0)
      as (ctss & -> & _); [|done|].
    { intros stage cts' _ H.
      destruct (stage_constraints_value_any_margin cascade epsilon epsilon'
                  pv fv stage cts' H) as (cts & Hcts).
      by exists cts. }
    simpl. by eexists. }
  destruct (init_run cascade epsilon s0) as (ext & Hrun). rewrite Hinit in Hrun.
  exists cm, (World (heap s0 ++ ext) (trace s0)). split; [done|].
  destruct (init_value_model _ _ _ Hinit)
    as (_ & Hpv & (m & Hfv) & Hcv & Hbv & ctss & Hc & Hcts).
  split; [by rewrite Hcv, Hcv'|]. split; [by rewrite Hbv, Hbv'|].
  intros a (Hbounds & Hbin & Hholds).
  split; [by rewrite Hcv, <- Hcv'|]. split; [by rewrite Hbv, <- Hbv'|].
  pose proof (feasible_binary _ _ _ a Hinit' Hbin) as Hbinary.
  rewrite Hcts. rewrite Hcts' in Hholds.
  rewrite Hpv', Hfv' in Hc'.
  destruct (for_collect_rel
              (stage_constraints_value cascade epsilon
                 (CascadeModel.make_pixel_vars cascade Model.new).2
                 (CascadeModel.make_feature_vars cascade m').2)
              _ (Forall2 (λ ct' ct, holds a ct' → holds a ct)) _ _
              (λ stage cts' _ H,
                 stage_constraints_tighten cascade epsilon epsilon' a Hle Hbinary
                   Model.new m' stage cts' H) Hc') as (ctss2 & Hctss2 & Hrel).
  assert (CascadeModel.feature_vars cm = (CascadeModel.make_feature_vars cascade m').2)
    as Hfv2.
  { rewrite Hfv. apply map_eq. intros idx. by rewrite !feature_vars_lookup. }
  rewrite Hpv, Hfv2, Hctss2 in Hc. injection Hc as <-.
  eapply Forall_transfer; [apply Forall2_concat_rel, Hrel| |exact Hholds].
  intros ct' ct H. exact H.
Qed.

(** * Further properties of the driver *)

Lemma sum_list_Permutation l l' : l ≡ₚ l' → (sum_list l == sum_list l')%Q.
Proof.
  induction 1 as [|x l l' _ IH|x y l|l l' l'' _ IH1 _ IH2].
  - reflexivity.
  - rewrite !sum_list_cons, IH. reflexivity.
  - rewrite !sum_list_cons. lra.
  - by rewrite IH1.
Qed.

Lemma NoDup_range n : NoDup (range n).
Proof.
  unfold range. apply NoDup_fmap_2; [apply Nat2Z.inj'|apply NoDup_seq].
Qed.

Lemma NoDup_pixels cascade : NoDup (pixels cascade).
Proof.
  unfold pixels. apply NoDup_bind; [| |apply NoDup_range].
  - intros y1 y2 [y x] _ _ H1 H2.
    apply list_elem_of_bind in H1 as (x1 & H1 & _).
    apply list_elem_of_bind in H2 as (x2 & H2 & _).
    apply list_elem_of_singleton in H1, H2. congruence.
  - intros y _. apply NoDup_bind; [| |apply NoDup_range].
    + intros x1 x2 [y' x] _ _ H1 H2.
      apply list_elem_of_singleton in H1, H2. congruence.
    + intros x _. apply NoDup_singleton.
Qed.

Lemma pixel_vars_to_list cascade m :
  map_to_list (CascadeModel.make_pixel_vars cascade m).2 ≡ₚ
  (λ '(y, x), ((x, y), pixel x y)) <$> pixels cascade.
Proof.
  apply NoDup_Permutation.
  - apply NoDup_map_to_list.
  - apply NoDup_fmap_2; [|apply NoDup_pixels].
    intros [y1 x1] [y2 x2] [= -> ->]. done.
  - intros [[x y] v]. rewrite elem_of_map_to_list, pixel_vars_lookup.
    rewrite list_elem_of_fmap. split.
    + case_decide as Hin; [|done]. intros [= <-]. by exists (y, x).
    + intros ([y' x'] & [= -> -> ->] & Hin). by rewrite decide_True.
Qed.

(** X12. The objective handed to the solver is the total intensity: the sum
    of all pixel variables, each once with coefficient [1]. *)
Theorem objective_is_total_intensity cascade epsilon s cm s' (a : assignment) :
  CascadeModel.init cascade epsilon s = (Ok cm, s') →
  (eval a (total_intensity cm) ==
   sum_list ((λ '(y, x), a (pixel x y)) <$> pixels cascade))%Q.
Proof.
  intros Hinit. apply init_ok_value in Hinit.
  destruct (init_value_model _ _ _ Hinit) as (_ & Hpv & _).
  unfold eval, total_intensity. rewrite Hpv, <- list_fmap_compose.
  rewrite (sum_list_Permutation _
             ((λ kv : Z * Z * var, (1 * a kv.2)%Q) <$>
              ((λ '(y, x), ((x, y), pixel x y)) <$> pixels cascade))).
  2:{ apply fmap_Permutation, pixel_vars_to_list. }
  rewrite <- list_fmap_compose. apply sum_list_fmap_Qeq.
  intros [y x] _. simpl. lra.
Qed.

Section DriverFurther.
Variable int : string → outcome Z.
Variable float : string → outcome Q.
Variable cv2_resize : ndarray → Z * Z → interpolation → outcome ndarray.
Variable solve : Model.t → option assignment.



(** X14. When the description loads and the model is built, a solver that
    returns nothing makes [find_min_face] raise the error of its [raise]
    statement; no grid is made. *)
Theorem find_min_face_solver_failure cascade_file s cascade cm s1 :
  Cascade.load int float cascade_file = Ok cascade →
  CascadeModel.init cascade 0 s = (Ok cm, s1) →
  solve (Model.set_objective (CascadeModel.model cm) (total_intensity cm))
    = None →
  find_min_face int float solve cascade_file s = (Raise SolveError, s1).
Proof.
  intros Hload Hinit Hsolve. unfold find_min_face.
  unfold bind at 1. unfold lift at 1. rewrite Hload.
  unfold bind at 1. rewrite Hinit. by rewrite Hsolve.
Qed.

End DriverFurther.

(** * Further properties of the loader *)

Lemma split_space_cons s : ∃ t ts, split_space s = t :: ts.
Proof.
  induction s as [|c s (t & ts & IH)]; simpl; [by eexists _, _|].
  destruct (Ascii.eqb c " "); [by eexists _, _|]. rewrite IH. by eexists _, _.
Qed.

Lemma join_split_space s : join_space (split_space s) = s.
Proof.
  induction s as [|c s IH]; [done|].
  cbn [split_space]. destruct (split_space_cons s) as (t & ts & Hs).
  rewrite Hs in IH |- *.
  destruct (Ascii.eqb_spec c " "%char) as [->|Hc].
  - change (join_space (EmptyString :: t :: ts))
      with (String " "%char (join_space (t :: ts))).
    by rewrite IH.
  - destruct ts as [|u us].
    + change (String c t = String c s). simpl in IH. by rewrite IH.
    + change (String c (join_space (t :: u :: us)) = String c s).
      by rewrite IH.
Qed.

Lemma split_space_no_space s : Forall (λ t, has_space t = false) (split_space s).
Proof.
  induction s as [|c s IH]; [by repeat constructor|].
  cbn [split_space]. destruct (Ascii.eqb c " "%char) eqn:Hc.
  - by constructor.
  - destruct (split_space s) as [|t ts]; [by repeat constructor; simpl; rewrite Hc|].
    inversion IH; subst. constructor; [|done]. simpl. by rewrite Hc.
Qed.

(** X16. The tokens of a node's text: [_split_text_content] returns at
    least one token, no token holds a space, and the tokens joined by single
    spaces give back the stripped text (so two spaces in a row yield an empty
    token). *)
Theorem split_text_content_tokens n sp :
  Cascade._split_text_content n = Ok sp →
  ∃ e t, n = Some e ∧ text e = Some t ∧
         sp ≠ [] ∧
         Forall (λ tok, has_space tok = false) sp ∧
         join_space sp = strip t.
Proof.
  unfold Cascade._split_text_content.
  destruct n as [e|]; [|done]. destruct (text e) as [t|] eqn:Ht; [|done].
  intros [= <-]. exists e, t. split_and!; try done.
  - destruct (split_space_cons (strip t)) as (u & us & ->). done.
  - apply split_space_no_space.
  - apply join_split_space.
Qed.

Lemma getitem_nat {A} (l : list A) (i : nat) x :
  getitem l (Z.of_nat i) = Ok x ↔ l !! i = Some x.
Proof.
  unfold getitem.
  destruct (Z.ltb_spec (Z.of_nat i) 0); [lia|].
  destruct (Z.ltb_spec (Z.of_nat i) 0); [lia|].
  rewrite Nat2Z.id. destruct (l !! i); split; congruence.
Qed.


Section LoadFurther.
Variable int : string → outcome Z.
Variable float : string → outcome Q.

Lemma obind_ok {A B} (e : outcome A) (k : A → outcome B) v :
  obind e k = Ok v → ∃ x, e = Ok x ∧ k x = Ok v.
Proof. destruct e as [x|]; [|done]. intros H. by exists x. Qed.

Lemma load_classifier_tokens cn cl :
  Cascade.load_classifier int float cn = Ok cl →
  classifier_of_tokens int float cn cl.
Proof.
  unfold Cascade.load_classifier, classifier_of_tokens. intros H.
  repeat (apply obind_ok in H; destruct H as (? & ? & H)).
  injection H as <-.
  repeat match goal with
         | H : assert ?b = Ok _ |- _ =>
             destruct b eqn:?; [clear H|discriminate H]
         | H : String.eqb _ _ = true |- _ => apply String.eqb_eq in H; subst
         | H : getitem _ 0 = Ok _ |- _ => apply (getitem_nat _ 0) in H
         | H : getitem _ 1 = Ok _ |- _ => apply (getitem_nat _ 1) in H
         | H : getitem _ 2 = Ok _ |- _ => apply (getitem_nat _ 2) in H
         | H : getitem _ 3 = Ok _ |- _ => apply (getitem_nat _ 3) in H
         end.
  match goal with
  | H : Cascade._split_text_content (find ["internalNodes"] cn) = Ok ?l |- _ =>
      destruct l as [|a [|b [|t2 [|t3 rest]]]]; try discriminate
  end.
  match goal with
  | H : Cascade._split_text_content (find ["leafValues"] cn) = Ok ?l |- _ =>
      destruct l as [|f [|p rest']]; try discriminate
  end.
  repeat match goal with
         | H : (_ :: _) !! _ = Some _ |- _ => cbn in H; injection H as ->
         end.
  do 6 eexists. split_and!; cbn; eassumption.
Qed.

Lemma load_rect_tokens rn r :
  Cascade.load_rect int float rn = Ok r → rect_of_tokens int float rn r.
Proof.
  unfold Cascade.load_rect, rect_of_tokens. intros H.
  apply obind_ok in H as (sp & Hsp & H).
  apply obind_ok in H as (xywh & Hxywh & H).
  destruct xywh as [|x [|y [|w [|h [|]]]]]; try discriminate.
  apply obind_ok in H as (sp4 & Hsp4 & H).
  apply obind_ok in H as (weight & Hweight & H).
  injection H as <-.
  apply (getitem_nat _ 4) in Hsp4.
  apply for_collect_Forall2 in Hxywh.
  destruct sp as [|tx [|ty [|tw [|th [|tweight rest]]]]]; try discriminate.
  cbn in Hsp4. injection Hsp4 as ->. cbn in Hxywh.
  apply Forall2_cons_1 in Hxywh as [Hx Hxywh].
  apply Forall2_cons_1 in Hxywh as [Hy Hxywh].
  apply Forall2_cons_1 in Hxywh as [Hw Hxywh].
  apply Forall2_cons_1 in Hxywh as [Hh _].
  by exists tx, ty, tw, th, sp4, rest.
Qed.

(** X17. A loaded cascade mirrors the description: the stages, the weak
    classifiers of each stage, the features and the rectangles of each
    feature are those of the matching nodes, in document order and of the
    same number; a classifier takes its feature index and threshold from
    the third and fourth token of [internalNodes] and [fail_val] before
    [pass_val] from [leafValues]. *)
Theorem load_mirrors_document root c :
  Cascade.load int float root = Ok c →
  (∃ tw th,
     Cascade.stripped_text (find ["cascade"; "width"]%string root) = Ok tw ∧
     int tw = Ok (Cascade.width c) ∧
     Cascade.stripped_text (find ["cascade"; "height"]%string root) = Ok th ∧
     int th = Ok (Cascade.height c)) ∧
  Forall2 (λ stage_node stage,
      (∃ t, Cascade.stripped_text (find ["stageThreshold"]%string stage_node)
              = Ok t ∧
            float t = Ok (Stage.threshold stage)) ∧
      Forall2 (classifier_of_tokens int float)
        (findall ["weakClassifiers"; "_"]%string stage_node)
        (Stage.weak_classifiers stage))
    (findall ["cascade"; "stages"; "_"]%string root) (Cascade.stages c) ∧
  Forall2 (λ feature_node f,
      Forall2 (rect_of_tokens int float)
        (findall ["rects"; "_"]%string feature_node) f)
    (findall ["cascade"; "features"; "_"]%string root) (Cascade.features c).
Proof.
  unfold Cascade.load.
  destruct (Cascade.stripped_text (find ["cascade"; "width"]%string root))
    as [tw|]; [|done]. cbn.
  destruct (int tw) as [w|] eqn:Hw; [|done]. cbn.
  destruct (Cascade.stripped_text (find ["cascade"; "height"]%string root))
    as [th|]; [|done]. cbn.
  destruct (int th) as [h|] eqn:Hh; [|done]. cbn.
  destruct (for_collect (Cascade.load_stage int float) _) as [stages|] eqn:Hst;
    [|done]. cbn.
  destruct (for_collect (Cascade.load_feature int float) _) as [features|] eqn:Hf;
    [|done]. cbn.
  intros [= <-]. cbn. split_and!.
  - by exists tw, th.
  - apply for_collect_Forall2 in Hst.
    eapply Forall2_impl; [exact Hst|]. clear.
    intros sn st. unfold Cascade.load_stage.
    destruct (Cascade.stripped_text _) as [t|]; [|done]. cbn.
    destruct (float t) as [thr|] eqn:Hthr; [|done]. cbn.
    destruct (for_collect _ _) as [wcs|] eqn:Hwcs; [|done]. cbn.
    intros [= <-]. cbn. split; [by exists t|].
    apply for_collect_Forall2 in Hwcs.
    eapply Forall2_impl; [exact Hwcs|]. apply load_classifier_tokens.
  - apply for_collect_Forall2 in Hf.
    eapply Forall2_impl; [exact Hf|]. clear.
    intros fnode f Hload. unfold Cascade.load_feature in Hload.
    apply for_collect_Forall2 in Hload.
    eapply Forall2_impl; [exact Hload|]. apply load_rect_tokens.
Qed.
End LoadFurther.

Lemma load_mirrors_document_witness :
  ∃ c, Cascade.load decimal_int decimal_float tie_document = Ok c ∧
       length (Cascade.stages c) = 1 ∧ length (Cascade.features c) = 1.
Proof.
  destruct (Cascade.load decimal_int decimal_float tie_document) as [c|] eqn:Hl;
    [|vm_compute in Hl; discriminate].
  destruct (load_mirrors_document _ _ _ _ Hl) as (_ & Hst & Hf).
  exists c. split; [reflexivity|].
  apply Forall2_length in Hst, Hf. split; [by rewrite <- Hst|by rewrite <- Hf].
Defined.

Lemma split_text_content_tokens_witness :
  ∃ sp, Cascade._split_text_content (Some (leaf "_" " 0 -1  3 0.5 ")) = Ok sp ∧
        join_space sp = "0 -1  3 0.5"%string ∧ length sp = 5.
Proof.
  destruct (split_text_content_tokens (Some (leaf "_" " 0 -1  3 0.5 ")) _ eq_refl)
    as (e & t & He & Ht & _ & _ & Hjoin).
  eexists. split; [reflexivity|]. split; [|reflexivity].
  injection He as <-. injection Ht as <-. exact Hjoin.
Defined.

(** * The quantization table *)

Lemma wrap_small z : (- 2 ^ 31 ≤ z < 2 ^ 31)%Z → wrap int32 z = z.
Proof.
  intros Hz. unfold wrap. cbn [bits]. change (32 - 1)%Z with 31%Z.
  change (2 ^ 32)%Z with (2 * 2 ^ 31)%Z. rewrite Z.mod_small; lia.
Qed.

Lemma scale_of_quality_bounds q : (0 ≤ scale_of_quality q ≤ 5000)%Z.
Proof.
  unfold scale_of_quality.
  destruct (Z.ltb_spec (Z.min 100 (Z.max 1 q)) 50); [|lia].
  split; [apply Z.div_pos; lia|].
  apply Z.div_le_upper_bound; lia.
Qed.

Lemma scale_of_quality_antitone q1 q2 :
  (q1 ≤ q2)%Z → (scale_of_quality q2 ≤ scale_of_quality q1)%Z.
Proof.
  intros Hq. unfold scale_of_quality.
  set (c1 := Z.min 100 (Z.max 1 q1)). set (c2 := Z.min 100 (Z.max 1 q2)).
  assert (1 ≤ c1 ≤ c2 ∧ c2 ≤ 100)%Z as (H1 & H2) by lia.
  destruct (Z.ltb_spec c1 50), (Z.ltb_spec c2 50); try lia.
  - apply Z.div_le_compat_l; lia.
  - assert (102 ≤ 5000 / c1)%Z; [|lia].
    apply Z.div_le_lower_bound; lia.
Qed.

Lemma basic_entries dt :
  Forall (Forall (λ b, 10 ≤ b ≤ 121)%Z) (int_cells (BASIC_QUANT_TABLE dt)).
Proof. cbn. repeat (constructor; [repeat (constructor; [lia|]); constructor|]). constructor. Qed.

Lemma quant_entry_bounds q b : (0 ≤ b)%Z → (0 ≤ quant_entry q b ≤ 255)%Z.
Proof.
  intros Hb. unfold quant_entry. pose proof (scale_of_quality_bounds q).
  assert (0 ≤ (b * scale_of_quality q + 50) / 100)%Z; [|lia].
  apply Z.div_pos; nia.
Qed.

(** The chain of array operations of [make_quant_table] on one entry. *)
Lemma quant_pipeline q b :
  (0 ≤ b ≤ 121)%Z →
  wrap int32 (Z.min (Z.max (wrap int32 (wrap int32
    (wrap int32 (b * scale_of_quality q) + 50) / 100)) 0) 255)
  = quant_entry q b.
Proof.
  intros Hb. pose proof (scale_of_quality_bounds q) as Hs.
  assert (0 ≤ b * scale_of_quality q ≤ 605000)%Z by nia.
  assert (0 ≤ (b * scale_of_quality q + 50) / 100 ≤ 605050)%Z.
  { split; [apply Z.div_pos; lia|]. apply Z.div_le_upper_bound; lia. }
  change (2 ^ 31)%Z with 2147483648%Z in *.
  rewrite (wrap_small (b * _)) by (change (2 ^ 31)%Z with 2147483648%Z; lia).
  rewrite (wrap_small (_ + 50)) by (change (2 ^ 31)%Z with 2147483648%Z; lia).
  rewrite (wrap_small (_ / 100)) by (change (2 ^ 31)%Z with 2147483648%Z; lia).
  rewrite wrap_small by (change (2 ^ 31)%Z with 2147483648%Z; lia).
  unfold quant_entry. lia.
Qed.

Lemma quant_cells q cells :
  Forall (Forall (λ b, 10 ≤ b ≤ 121)%Z) cells →
  int_cells
    (numpy_clip
       (int_map (λ v, v / 100)%Z
          (int_map (λ v, v + 50)%Z
             (int_map (λ v, v * scale_of_quality q)%Z (IntArray int32 cells))))
       0 255)
  = (λ row : list Z, quant_entry q <$> row) <$> cells.
Proof.
  intros Hb. unfold numpy_clip, int_map. cbn [dtype_of int_cells].
  rewrite <- !list_fmap_compose.
  induction Hb as [|row rows Hrow _ IH]; [done|].
  rewrite !fmap_cons. f_equal; [|exact IH].
  cbn [compose]. rewrite <- !list_fmap_compose.
  induction Hrow as [|b bs Hb' _ IH']; [done|].
  rewrite !fmap_cons. f_equal; [|exact IH'].
  cbn [compose]. apply quant_pipeline. lia.
Qed.

Lemma make_quant_table_value q :
  make_quant_table int32 q
  = Ok (IntArray int32
          ((λ row : list Z, quant_entry q <$> row)
             <$> int_cells (BASIC_QUANT_TABLE int32))).
Proof.
  unfold make_quant_table. fold (scale_of_quality q).
  rewrite <- (quant_cells q _ (basic_entries int32)).
  reflexivity.
Qed.

(** X18. On a platform whose default integer is 64 bits wide the final
    assertion of [make_quant_table] fails for every quality; with a 32-bit
    default integer the call returns for every quality. *)
Theorem make_quant_table_requires_int32 dt q :
  is_ok (make_quant_table dt q) = true ↔ dt = int32.
Proof.
  destruct dt.
  - by rewrite make_quant_table_value.
  - split; [|done]. unfold make_quant_table. by cbn.
Qed.

(** X19. With a 32-bit default integer no product overflows and the lower
    clip never applies: every entry of the table is
    [min(255, (b * scale_factor + 50) / 100)] for the basic entry [b] at
    its place, and lies in [0, 255]. *)
Theorem make_quant_table_entries q :
  ∃ table,
    make_quant_table int32 q = Ok table ∧
    Forall2 (Forall2 (λ b v, v = quant_entry q b ∧ (0 ≤ v ≤ 255)%Z))
      (int_cells (BASIC_QUANT_TABLE int32)) (int_cells table).
Proof.
  eexists. split; [apply make_quant_table_value|].
  cbn [int_cells]. apply Forall2_fmap_r, Forall_Forall2_diag.
  eapply Forall_impl; [apply (basic_entries int32)|].
  intros row Hrow. apply Forall2_fmap_r, Forall_Forall2_diag.
  eapply Forall_impl; [exact Hrow|].
  intros b Hb. cbn in Hb |- *. split; [done|]. apply quant_entry_bounds. lia.
Qed.

Lemma quant_entry_antitone q1 q2 b :
  (0 ≤ b)%Z → (q1 ≤ q2)%Z → (quant_entry q2 b ≤ quant_entry q1 b)%Z.
Proof.
  intros Hb Hq. unfold quant_entry.
  pose proof (scale_of_quality_antitone q1 q2 Hq).
  apply Z.min_le_compat_l, Z.div_le_mono; [lia|nia].
Qed.

Lemma cells_pointwise (R : Z → Z → Prop) (f g : Z → Z) (cells : list (list Z)) :
  Forall (Forall (λ b, R (f b) (g b))) cells →
  Forall2 (Forall2 R) ((λ row : list Z, f <$> row) <$> cells)
                      ((λ row : list Z, g <$> row) <$> cells).
Proof.
  induction 1 as [|row rows Hrow _ IH]; [constructor|].
  rewrite !fmap_cons. constructor; [|exact IH].
  induction Hrow as [|b bs Hb _ IH']; [constructor|].
  rewrite !fmap_cons. by constructor.
Qed.

(** X20. A higher quality never gives a larger entry: the tables are ordered
    place by place, against the order of the qualities. *)
Theorem make_quant_table_monotone q1 q2 t1 t2 :
  (q1 ≤ q2)%Z →
  make_quant_table int32 q1 = Ok t1 →
  make_quant_table int32 q2 = Ok t2 →
  table_le t2 t1.
Proof.
  intros Hq H1 H2. rewrite make_quant_table_value in H1, H2.
  pose proof (f_equal (λ o, match o with Ok t => int_cells t | Raise _ => [] end) H1)
    as E1.
  pose proof (f_equal (λ o, match o with Ok t => int_cells t | Raise _ => [] end) H2)
    as E2.
  cbn [int_cells] in E1, E2. unfold table_le. rewrite <- E1, <- E2.
  apply cells_pointwise.
  eapply Forall_impl; [apply (basic_entries int32)|].
  intros row Hrow. eapply Forall_impl; [exact Hrow|].
  intros b Hb. cbn in Hb |- *. apply quant_entry_antitone; [lia|done].
Qed.

Lemma make_quant_table_monotone_witness :
  ∃ t1 t2, make_quant_table int32 10 = Ok t1 ∧
           make_quant_table int32 90 = Ok t2 ∧ table_le t2 t1.
Proof.
  eexists _, _. split; [reflexivity|]. split; [reflexivity|].
  apply (make_quant_table_monotone 10 90); [lia|reflexivity|reflexivity].
Defined.

Lemma constant_entries (f : Z → Z) v dt :
  Forall (Forall (λ b, f b = v)) (int_cells (BASIC_QUANT_TABLE dt)) →
  (λ row : list Z, f <$> row) <$> int_cells (BASIC_QUANT_TABLE dt)
  = replicate 8 (replicate 8 v).
Proof.
  cbn [BASIC_QUANT_TABLE int_cells]. intros H.
  repeat match goal with
         | H : Forall _ (_ :: _) |- _ =>
             let H1 := fresh in let H2 := fresh in
             apply Forall_cons_1 in H as [H1 H2]
         end.
  cbn. by repeat match goal with H : f _ = v |- _ => rewrite H; clear H end.
Qed.

(** X21. Every quality of 100 or more is treated as 100 and gives the table
    that is zero everywhere. *)
Theorem make_quant_table_highest q :
  (100 ≤ q)%Z → make_quant_table int32 q = Ok (constant_table int32 0).
Proof.
  intros Hq. rewrite make_quant_table_value. unfold constant_table.
  f_equal. f_equal. apply constant_entries.
  eapply Forall_impl; [apply (basic_entries int32)|].
  intros row Hrow. eapply Forall_impl; [exact Hrow|].
  intros b Hb. cbn in Hb |- *. unfold quant_entry, scale_of_quality.
  rewrite (Z.min_l 100) by lia. cbn. rewrite Z.mul_0_r. reflexivity.
Qed.

Lemma make_quant_table_highest_witness :
  make_quant_table int32 250 = Ok (constant_table int32 0).
Proof. apply make_quant_table_highest. lia. Defined.

(** X22. Every quality of 1 or less is treated as 1 and gives the table that
    is 255 everywhere: the scale factor 5000 takes each entry past the
    upper clip. *)
Theorem make_quant_table_lowest q :
  (q ≤ 1)%Z → make_quant_table int32 q = Ok (constant_table int32 255).
Proof.
  intros Hq. rewrite make_quant_table_value. unfold constant_table.
  f_equal. f_equal. apply constant_entries.
  eapply Forall_impl; [apply (basic_entries int32)|].
  intros row Hrow. eapply Forall_impl; [exact Hrow|].
  intros b Hb. cbn in Hb |- *. unfold quant_entry.
  assert (scale_of_quality q = 5000%Z) as ->.
  { unfold scale_of_quality. by rewrite (Z.max_l 1) by lia. }
  apply Z.min_l. apply Z.div_le_lower_bound; lia.
Qed.

Lemma make_quant_table_lowest_witness :
  make_quant_table int32 (-3) = Ok (constant_table int32 255).
Proof. apply make_quant_table_lowest. lia. Defined.

(** * The further properties on the examples *)


Lemma detect_skips_resize_witness :
  Cascade.detect sample_resize sample_cascade 0 sample_world =
  Cascade.detect failing_resize sample_cascade 0 sample_world.
Proof.
  apply (detect_skips_resize sample_resize failing_resize sample_cascade 0
           sample_image sample_world); reflexivity.
Defined.

Lemma detect_resize_error_witness :
  Cascade.detect sample_resize sample_cascade 0 (World [empty_image] []) =
  (Raise Cv2Error, World [empty_image] []).
Proof.
  apply (detect_resize_error sample_resize sample_cascade 0 empty_image).
  - reflexivity.
  - vm_compute. discriminate.
  - reflexivity.
Defined.

Lemma detect_on_resized_witness :
  ∃ ext ext' ev,
    Cascade.detect sample_resize sample_cascade 0 (World [small_image] []) =
      ((Cascade.detect sample_resize sample_cascade 0
          (World [resized_small] [])).1,
       World ([small_image] ++ ext) ([] ++ ev)) ∧
    (Cascade.detect sample_resize sample_cascade 0 (World [resized_small] [])).2 =
      World ([resized_small] ++ ext') ([] ++ ev).
Proof.
  apply (detect_on_resized sample_resize sample_cascade 0 small_image
           resized_small (World [small_image] []) 0 (World [resized_small] [])).
  - reflexivity.
  - vm_compute. discriminate.
  - vm_compute. reflexivity.
  - reflexivity.
  - reflexivity.
Defined.

Lemma detect_raises_first_error_witness :
  (Cascade.detect sample_resize broken_cascade 0 sample_world).1
  = Raise IndexError.
Proof.
  eapply (detect_raises_first_error sample_resize broken_cascade 0 sample_image _
            sample_world 1).
  - reflexivity.
  - reflexivity.
  - reflexivity.
  - constructor; [|constructor].
    eexists. split; [vm_compute; reflexivity|vm_compute; discriminate].
  - vm_compute. reflexivity.
Defined.

Lemma init_requires_valid_indices_witness :
  (0 ≤ 0 < Z.of_nat (length (Cascade.features tie_cascade)))%Z ∧
  (0 ≤ Cascade.height tie_cascade)%Z ∧ (0 ≤ Cascade.width tie_cascade)%Z.
Proof.
  destruct (CascadeModel.init tie_cascade 0 (World [] [])) as [r s1] eqn:Hinit.
  assert (∃ cm, r = Ok cm) as (cm & ->).
  { vm_compute in Hinit. injection Hinit as <- _. eexists. reflexivity. }
  apply (init_requires_valid_indices tie_cascade 0 (World [] []) cm s1
           (Stage.mk 0 [WeakClassifier.mk 0 (- (1 # 2)) 1 (-1)])
           (WeakClassifier.mk 0 (- (1 # 2)) 1 (-1)) Hinit).
  - apply list_elem_of_here.
  - apply list_elem_of_here.
Defined.

Lemma init_variables_witness :
  ∃ cm s1,
    CascadeModel.init sample_cascade 0 (World [] []) = (Ok cm, s1) ∧
    length (Model.continuous_vars (CascadeModel.model cm)) = 6 ∧
    length (Model.binary_vars (CascadeModel.model cm)) = 1.
Proof.
  destruct (CascadeModel.init sample_cascade 0 (World [] [])) as [r s1] eqn:Hinit.
  assert (∃ cm, r = Ok cm) as (cm & ->).
  { vm_compute in Hinit. injection Hinit as <- _. eexists. reflexivity. }
  destruct (init_variables sample_cascade 0 (World [] []) cm s1 Hinit)
    as (Hcv & Hbv & _).
  exists cm, s1. split; [reflexivity|]. by rewrite Hcv, Hbv.
Defined.

Lemma model_tightens_with_epsilon_witness :
  ∃ cm s1,
    CascadeModel.init tie_cascade 0 (World [] []) = (Ok cm, s1) ∧
    feasible margin_solution (CascadeModel.model cm).
Proof.
  destruct (CascadeModel.init tie_cascade (1 # 4) (World [] [])) as [r s1'] eqn:Hinit.
  assert (∃ cm', r = Ok cm' ∧
                 feasibleb margin_solution (CascadeModel.model cm') = true)
    as (cm' & -> & Hf).
  { vm_compute in Hinit. injection Hinit as <- _. eexists. split; reflexivity. }
  destruct (model_tightens_with_epsilon tie_cascade 0 (1 # 4) (World [] []) cm' s1'
              (World [] [])) as (cm & s1 & Hcm & _ & _ & Hsol).
  - vm_compute. discriminate.
  - exact Hinit.
  - exists cm, s1. split; [exact Hcm|]. apply Hsol. by apply feasibleb_sound.
Defined.

Lemma objective_is_total_intensity_witness :
  ∃ cm s1,
    CascadeModel.init sample_cascade 0 (World [] []) = (Ok cm, s1) ∧
    (eval plain_solution (total_intensity cm) == 6)%Q.
Proof.
  destruct (CascadeModel.init sample_cascade 0 (World [] [])) as [r s1] eqn:Hinit.
  assert (∃ cm, r = Ok cm) as (cm & ->).
  { vm_compute in Hinit. injection Hinit as <- _. eexists. reflexivity. }
  exists cm, s1. split; [reflexivity|].
  rewrite (objective_is_total_intensity sample_cascade 0 (World [] []) cm s1
             plain_solution Hinit).
  reflexivity.
Defined.

Lemma find_min_face_solver_failure_witness :
  ∃ s1,
    find_min_face decimal_int decimal_float no_solver tie_document (World [] [])
    = (Raise SolveError, s1).
Proof.
  destruct (CascadeModel.init tie_cascade 0 (World [] [])) as [r s1] eqn:Hinit.
  assert (∃ cm, r = Ok cm) as (cm & ->).
  { vm_compute in Hinit. injection Hinit as <- _. eexists. reflexivity. }
  exists s1.
  apply (find_min_face_solver_failure decimal_int decimal_float no_solver
           tie_document (World [] []) tie_cascade cm s1).
  - vm_compute. reflexivity.
  - exact Hinit.
  - reflexivity.
Defined.

